(** * cpp-logger: a shallow embedding of the log service and its client helper

    Sources embedded here:
    - [loglevel.hpp]                       the severity constants;
    - [src/server.cpp], [src/logserver.hpp] the service: constructor, the
      accept/read loop [Logger::start], the queue operations and
      [Logger::commitLog];
    - [service.cpp]                        the single-file variant of the
      service, whose [commitLog] differs (module [Service]);
    - [src/client.cpp]                     the client helper [LogClient].

    Conventions.  A [std::string] and a [char] array are both lists of
    [ascii]; a C string read from a [char*] is the run of bytes before the
    first NUL.  Integers are [Z]; a [uint8_t] store is written [to_uint8].
    Calls that end the process ([exit], a failed [assert]) are results of
    the [outcome] type.  [assert] is taken as compiled in (no NDEBUG). *)

From Stdlib Require Import ZArith Ascii String Bool Arith Lia.
From Stdlib Require Import Numbers.DecimalString.
From Stdlib Require Import List.
Import ListNotations.

(** ** Bytes and strings *)

Definition bytes := list ascii.

(** A string literal of the source, as bytes. *)
Definition lit (s : string) : bytes := list_ascii_of_string s.

Definition NUL : ascii := "000"%char.
Definition LF : ascii := "010"%char.
Definition ESC : ascii := "027"%char.
Definition COLON : ascii := ":"%char.

Definition code (c : ascii) : Z := Z.of_N (N_of_ascii c).

(** [memset(buf, 0, n)] on a whole array of [n] bytes, and the array
    [char buf[n] = {0}]. *)
Definition zeros (n : nat) : bytes := repeat NUL n.

(** The C string that starts at a pointer: the bytes before the first NUL.
    [std::string(const char * )] builds its value this way. *)
Fixpoint c_str (p : bytes) : bytes :=
  match p with
  | [] => []
  | c :: p' => if Ascii.eqb c NUL then [] else c :: c_str p'
  end.

(** [a[i] = v] on an array. *)
Definition store_at (i : nat) (v : ascii) (a : bytes) : bytes :=
  firstn i a ++ match skipn i a with [] => [] | _ :: t => v :: t end.

(** ** loglevel.hpp *)

Definition HEADER : Z := 0.
Definition INFO : Z := 1.
Definition DEBUG : Z := 2.
Definition ERROR : Z := 3.

Definition to_uint8 (z : Z) : Z := z mod 256.

(** A queued log: [std::pair<uint8_t, std::string>]. *)
Definition log := (Z * bytes)%type.

(** ** Process-ending calls *)

Definition EXIT_SUCCESS : Z := 0.
Definition EXIT_FAILURE : Z := 1.

(** What a piece of the program does: it returns, it calls [exit(code)],
    it dies in [abort()] after a failed [assert], or it runs into behaviour
    the language leaves undefined. *)
Inductive outcome (A : Type) : Type :=
| Ret (a : A)
| Exit (code : Z)
| Abort
| Undefined.

Arguments Ret {A} a.
Arguments Exit {A} code.
Arguments Abort {A}.
Arguments Undefined {A}.

Definition bind {A B} (m : outcome A) (k : A -> outcome B) : outcome B :=
  match m with
  | Ret a => k a
  | Exit c => Exit c
  | Abort => Abort
  | Undefined => Undefined
  end.

Notation "x <- m ;; k" := (bind m (fun x => k))
  (at level 61, m at next level, right associativity).

Definition assert (b : bool) : outcome unit := if b then Ret tt else Abort.

(** ** strtol(s, NULL, 10) *)

Definition ERANGE : Z := 34.
Definition EINVAL : Z := 22.
Definition LONG_MAX : Z := 9223372036854775807.
Definition LONG_MIN : Z := -9223372036854775808.

Definition isspace (c : ascii) : bool :=
  (code c =? 32)%Z || ((9 <=? code c)%Z && (code c <=? 13)%Z).

Definition isdigit (c : ascii) : bool :=
  (48 <=? code c)%Z && (code c <=? 57)%Z.

Fixpoint skip_space (s : bytes) : bytes :=
  match s with
  | c :: s' => if isspace c then skip_space s' else s
  | [] => []
  end.

(** The digit run at the head of [s]: its value on top of [acc], and
    whether a digit was seen. *)
Fixpoint digit_run (s : bytes) (acc : Z) (seen : bool) : Z * bool :=
  match s with
  | c :: s' =>
      if isdigit c then digit_run s' (10 * acc + (code c - 48))%Z true
      else (acc, seen)
  | [] => (acc, seen)
  end.

Section Strtol.

(** POSIX lets [strtol] set [errno] to [EINVAL] when no conversion is
    performed; ISO C leaves [errno] alone.  glibc does not set it. *)
Variable einval_on_no_conversion : bool.

(** The value returned and the value stored to [errno] ([0]: [errno] is
    left as it was).  White space is skipped, one sign is read, then the
    digit run; anything after it is ignored since [endptr] is NULL. *)
Definition strtol (s : bytes) : Z * Z :=
  let s1 := skip_space s in
  let '(neg, s2) :=
    match s1 with
    | c :: t =>
        if Ascii.eqb c "-" then (true, t)
        else if Ascii.eqb c "+" then (false, t)
        else (false, s1)
    | [] => (false, s1)
    end in
  let '(mag, seen) := digit_run s2 0%Z false in
  if negb seen then (0%Z, if einval_on_no_conversion then EINVAL else 0%Z)
  else
    let v := if neg then (- mag)%Z else mag in
    if (LONG_MAX <? v)%Z then (LONG_MAX, ERANGE)
    else if (v <? LONG_MIN)%Z then (LONG_MIN, ERANGE)
    else (v, 0%Z).

End Strtol.

(** ** Logger::start: reading one connection (src/server.cpp, 88-122) *)

Section FrameReader.

(** [LINE_MAX] comes from <climits>; the source does not fix it. *)
Variable LINE_MAX : nat.
Variable einval_on_no_conversion : bool.

(** The locals of one pass of the accept loop, with [errno]. *)
Record frame : Type := mkFrame {
  first_read : bool;
  msg : bytes;
  level : Z;
  buf : bytes;
  errno : Z
}.

(** [read(msg_d, buf, LINE_MAX - 1)] returned [chunk]: its bytes now
    sit at the start of [buf]. *)
Definition read_into (chunk b : bytes) : bytes :=
  chunk ++ skipn (length chunk) b.

(** [for (; buf_start < LINE_MAX && buf[buf_start] != ':'; buf_start++);]
    with [n] the iterations left before [buf_start] reaches [LINE_MAX]
    and [p] the array from [buf_start] on. *)
Fixpoint find_colon (n : nat) (p : bytes) (buf_start : nat) : nat :=
  match n, p with
  | S n', c :: p' =>
      if Ascii.eqb c COLON then buf_start
      else find_colon n' p' (S buf_start)
  | _, _ => buf_start
  end.

(** The body of the [while] loop for one chunk.  The test [bytes < 1] at
    its head cannot hold inside the loop and is left out. *)
Definition read_body (chunk : bytes) (st : frame) : outcome frame :=
  let b := read_into chunk (buf st) in
  if first_read st then
    let buf_start := find_colon LINE_MAX b 0 in
    if buf_start =? LINE_MAX then Exit EXIT_FAILURE
    else
      let b := store_at buf_start NUL b in
      let '(l, e) := strtol einval_on_no_conversion (c_str b) in
      let errno' := if (e =? 0)%Z then errno st else e in
      _ <- assert (errno' =? 0)%Z ;;
      _ <- assert ((0 <=? l)%Z && (l <=? 3)%Z) ;;
      let buf_start := S buf_start in
      Ret {| first_read := false;
             msg := msg st ++ c_str (skipn buf_start b);
             level := to_uint8 l;
             buf := zeros LINE_MAX;
             errno := errno' |}
  else
    Ret {| first_read := false;
           msg := msg st ++ c_str b;
           level := level st;
           buf := zeros LINE_MAX;
           errno := errno st |}.

(** [while ((bytes = read(...)) > 0) { ... }] over the successive results
    of [read]; the end of the list is the [read] that returns 0, the peer's
    close, or -1. *)
Fixpoint read_loop (reads : list bytes) (st : frame) : outcome frame :=
  match reads with
  | [] => Ret st
  | chunk :: more =>
      if 0 <? length chunk
      then st' <- read_body chunk st ;; read_loop more st'
      else Ret st
  end.

(** The locals as declared at lines 88-92.  [level] has no initialiser:
    [junk] is whatever it holds.  [errno] is 0, the check after [accept]
    has just passed. *)
Definition fresh (junk : Z) : frame :=
  {| first_read := true; msg := []; level := junk;
     buf := zeros LINE_MAX; errno := 0%Z |}.

(** [read] hands back between 1 and [LINE_MAX - 1] bytes. *)
Definition chunk_ok (c : bytes) : Prop := 0 < length c < LINE_MAX.

(** Lines 88-122 up to the argument of [pushQueue]. *)
Definition read_connection (junk : Z) (reads : list bytes) : outcome log :=
  st <- read_loop reads (fresh junk) ;; Ret (level st, msg st).

End FrameReader.

(** ** The Logger object (src/logserver.hpp, src/server.cpp) *)

Definition STDOUT : Z := 1.

(** The members [file] and [logqueue]; [sock], [addr] and the mutex play
    no part below.  [written] is not a member: it lists the buffers handed
    to [write(file, ...)] so far, oldest first. *)
Record Logger : Type := mkLogger {
  file : Z;
  logqueue : list log;
  written : list bytes
}.

(** [logqueue.push(log)] between [lock] and [unlock]. *)
Definition pushQueue (l : log) (L : Logger) : Logger :=
  {| file := file L; logqueue := logqueue L ++ [l]; written := written L |}.

(** [logqueue.front()] then [logqueue.pop()] between [lock] and [unlock];
    both are undefined on an empty [std::queue]. *)
Definition popQueue (L : Logger) : outcome (log * Logger) :=
  match logqueue L with
  | [] => Undefined
  | l :: q => Ret (l, {| file := file L; logqueue := q; written := written L |})
  end.

(** An escape sequence ["\e..."] of the source. *)
Definition esc (s : string) : bytes := ESC :: lit s.

(** The lambda [apply] of [commitLog]. *)
Definition apply (colour message : bytes) : bytes :=
  colour ++ message ++ esc "[0m".

(** The [switch] of [commitLog] (lines 172-204): the new value of
    [message]. *)
Definition colour_switch (file level : Z) (message : bytes) : outcome bytes :=
  if (level =? HEADER)%Z then
    Ret (if (file =? STDOUT)%Z then apply (esc "[0m") message else message)
  else if (level =? INFO)%Z then
    let message := lit "Info: " ++ message in
    Ret (if (file =? STDOUT)%Z then apply (esc "[0;36m") message else message)
  else if (level =? DEBUG)%Z then
    let message := lit "Debug: " ++ message in
    Ret (if (file =? STDOUT)%Z then apply (esc "[0;93m") message else message)
  else if (level =? ERROR)%Z then
    let message := lit "Error: " ++ message in
    Ret (if (file =? STDOUT)%Z then apply (esc "[0;91m") message else message)
  else Exit EXIT_FAILURE.

(** Lines 206-212: the closing reset on a terminal, then the newline test
    [message[message.size() - 1] != '\n'], which indexes out of range on an
    empty [message]. *)
Definition terminate_line (file : Z) (message : bytes) : outcome bytes :=
  let message := if (file =? STDOUT)%Z then message ++ esc "[0m" else message in
  match message with
  | [] => Undefined
  | _ :: _ =>
      if Ascii.eqb (last message NUL) LF then Ret message
      else Ret (message ++ [LF])
  end.

(** [Logger::commitLog] (lines 167-215); the one [write] takes all
    [message.size()] bytes. *)
Definition commitLog (level : Z) (message : bytes) (L : Logger) : outcome Logger :=
  message <- colour_switch (file L) level message ;;
  message <- terminate_line (file L) message ;;
  Ret {| file := file L; logqueue := logqueue L; written := written L ++ [message] |}.

(** One turn of the outer loop of [Logger::processQueue], taken when the
    queue holds a log: the wait is passed, one log is popped and committed.
    On an empty queue the wait [while (logqueue.empty()) {}] does not end;
    it reads the queue outside [logqueuelock] and has no side effect, so
    the language gives such a turn no meaning. *)
Definition processQueue_turn (L : Logger) : outcome Logger :=
  match logqueue L with
  | [] => Undefined
  | _ :: _ =>
      p <- popQueue L ;;
      commitLog (fst (fst p)) (snd (fst p)) (snd p)
  end.

(** The banner of the constructor (lines 66-70). *)
Definition header : bytes :=
  repeat "-"%char 79 ++ [LF] ++
  repeat " "%char 34 ++ lit "New Log" ++ [LF] ++
  repeat "-"%char 79 ++ [LF].

(** The bytes that [commitLog] hands to [write] for a log. *)
Definition formatted (f : Z) (l : log) : outcome bytes :=
  m <- colour_switch f (fst l) (snd l) ;; terminate_line f m.

(** What [commitLog] writes for the banner: the banner itself on a file,
    the banner between resets and a newline on the terminal. *)
Definition banner (f : Z) : bytes :=
  if (f =? STDOUT)%Z
  then (ESC :: lit "[0m") ++ header ++ (ESC :: lit "[0m")
       ++ (ESC :: lit "[0m") ++ [LF]
  else header.

(** What the system calls of the constructor answer. *)
Record setup : Type := mkSetup {
  open_ret : Z;
  socket_errno : Z;
  setsockopt_ret : Z;
  bind_ret : Z;
  listen_ret : Z
}.

(** [Logger::Logger] up to the start of the queue thread (lines 20-72);
    the call of [start] that follows never returns. *)
Definition Logger_ctor (name : bytes) (e : setup) : outcome Logger :=
  file <- (if list_eq_dec ascii_dec name (lit "stdout") then Ret STDOUT
           else if (open_ret e <? 0)%Z then Exit EXIT_FAILURE
           else Ret (open_ret e)) ;;
  if negb (socket_errno e =? 0)%Z then Exit EXIT_FAILURE
  else if (setsockopt_ret e <? 0)%Z then Exit EXIT_FAILURE
  else if (bind_ret e <? 0)%Z then Exit EXIT_FAILURE
  else if (listen_ret e <? 0)%Z then Exit EXIT_FAILURE
  else
    Ret (pushQueue (HEADER, header)
           {| file := file; logqueue := []; written := [] |}).

(** One connection as the service meets it: what [accept] leaves in
    [errno], the indeterminate content of the local [level], and the
    results of the successive [read] calls that return more than 0. *)
Record connection : Type := mkConnection {
  accept_errno : Z;
  junk : Z;
  reads : list bytes
}.

Section Threads.

Variable LINE_MAX : nat.
Variable einval_on_no_conversion : bool.

(** One turn of the loop of [Logger::start] (lines 78-123). *)
Definition start_turn (c : connection) (L : Logger) : outcome Logger :=
  if negb (accept_errno c =? 0)%Z then Exit EXIT_FAILURE
  else
    l <- read_connection LINE_MAX einval_on_no_conversion (junk c) (reads c) ;;
    Ret (pushQueue l L).

End Threads.

(** ** The handoff queue driven by a schedule *)

Inductive queue_op : Type :=
| Push (l : log)
| Pop.

(** The logs pushed by a schedule, in order. *)
Fixpoint pushes (ops : list queue_op) : list log :=
  match ops with
  | [] => []
  | Push l :: ops' => l :: pushes ops'
  | Pop :: ops' => pushes ops'
  end.

(** Runs the schedule; [popped] collects what [popQueue] returned. *)
Fixpoint run_queue (ops : list queue_op) (popped : list log) (L : Logger)
  : outcome (list log * Logger) :=
  match ops with
  | [] => Ret (popped, L)
  | Push l :: ops' => run_queue ops' popped (pushQueue l L)
  | Pop :: ops' =>
      p <- popQueue L ;;
      run_queue ops' (popped ++ [fst p]) (snd p)
  end.

(** No [Pop] meets an empty queue of [n] logs: what the wait in
    [processQueue] ensures for the one consumer. *)
Fixpoint guarded (ops : list queue_op) (n : nat) : bool :=
  match ops with
  | [] => true
  | Push _ :: ops' => guarded ops' (S n)
  | Pop :: ops' => match n with 0 => false | S n' => guarded ops' n' end
  end.

(** The number of [Pop]s of a schedule. *)
Fixpoint pops (ops : list queue_op) : nat :=
  match ops with
  | [] => 0
  | Push _ :: ops' => pops ops'
  | Pop :: ops' => S (pops ops')
  end.

(** ** service.cpp: the variant of commitLog *)

Module Service.

(** [FILE *file]: [stdout] or a stream from [fopen]. *)
Inductive FILE : Type :=
| stdout
| fopened (name : bytes).

Definition is_stdout (f : FILE) : bool :=
  match f with stdout => true | fopened _ => false end.

(** The [switch] of [commitLog] (service.cpp, 220-252). *)
Definition colour_switch (file : FILE) (level : Z) (message : bytes)
  : outcome bytes :=
  if (level =? HEADER)%Z then
    Ret (if is_stdout file then apply (esc "[0m") message else message)
  else if (level =? INFO)%Z then
    let message := lit "Info: " ++ message in
    Ret (if is_stdout file then apply (esc "[0;36m") message else message)
  else if (level =? DEBUG)%Z then
    let message := lit "Debug: " ++ message in
    Ret (if is_stdout file then apply (esc "[0;93m") message else message)
  else if (level =? ERROR)%Z then
    let message := lit "Error: " ++ message in
    Ret (if is_stdout file then apply (esc "[0;91m") message else message)
  else Exit EXIT_FAILURE.

(** [commitLog] (service.cpp, 215-260): the bytes given to [fwrite]. *)
Definition commitLog (file : FILE) (level : Z) (message : bytes)
  : outcome bytes :=
  message <- colour_switch file level message ;;
  let message := if is_stdout file then message ++ esc "[0m" else message in
  Ret message.

End Service.

(** ** The client helper (src/client.cpp) *)

Module LogClient.

(** [std::to_string] of a [log_t], promoted to [int]. *)
Definition to_string (level : Z) : bytes :=
  lit (NilEmpty.string_of_int (Z.to_int level)).

(** [LogClient::format_log]: the new value of [log]. *)
Definition format_log (level : Z) (log : bytes) : bytes :=
  to_string level ++ lit ":" ++ log.

(** What the system calls of [writeLog] answer. *)
Record net : Type := mkNet {
  socket_errno : Z;
  connect_ret : Z;
  write_ret : Z
}.

(** [LogClient::writeLog]: the value returned, and the bytes the one
    [write] call was given, if it was reached.  [log.c_str()] points at
    the characters of [log] followed by a NUL. *)
Definition writeLog (level : Z) (log : bytes) (e : net) : Z * option bytes :=
  if negb (socket_errno e =? 0)%Z then ((-1)%Z, None)
  else if (connect_ret e <? 0)%Z then ((-1)%Z, None)
  else
    let log := format_log level log in
    let sent := firstn (length log + 1) (log ++ [NUL]) in
    if (write_ret e <? 0)%Z then ((-1)%Z, Some sent)
    else (0%Z, Some sent).

End LogClient.

(** ** Auxiliary notions for the statements *)

(** The strict reading of a level on the wire: a non-empty run of decimal
    digits and nothing else, with its value. *)
Definition decimal_value (pre : bytes) : option Z :=
  match pre with
  | [] => None
  | _ :: _ =>
      if forallb isdigit pre then Some (fst (digit_run pre 0%Z false))
      else None
  end.

(** [std::to_string] checked against [decimal_value] at one value. *)
Definition decimal_ok (n : nat) : bool :=
  match decimal_value (LogClient.to_string (Z.of_nat n)) with
  | Some v => (v =? Z.of_nat n)%Z
  | None => false
  end.

(** A schedule of the two threads on the queue. *)
Definition sample_schedule : list queue_op :=
  [Push (INFO, lit "a"); Push (ERROR, lit "b"); Pop;
   Push (DEBUG, lit "c"); Pop; Pop].

(** ** main.cpp *)

(** [get_port]: the port read from [argv[2]].  [errno] is 0 when the
    program starts, so after [strtol] it holds what [strtol] stored.  The
    bound [(1 << 16) - 1] is 65535; the result is returned as a
    [uint16_t]. *)
Definition get_port (einval_on_no_conversion : bool) (port_string : bytes)
  : outcome Z :=
  let '(port, e) := strtol einval_on_no_conversion (c_str port_string) in
  _ <- assert (e =? 0)%Z ;;
  _ <- assert ((0 <=? port)%Z && (port <=? 65535)%Z) ;;
  Ret (port mod 65536)%Z.

(** [main] up to the point where the constructor has started the queue
    thread: [argv] holds the [argc] arguments, the program name first.
    The three [signal] calls change nothing that is modelled here. *)
Definition main (einval_on_no_conversion : bool) (argv : list bytes)
  (s : setup) : outcome Logger :=
  _ <- assert (length argv =? 3) ;;
  let name := nth 1 argv [] in
  port <- get_port einval_on_no_conversion (nth 2 argv []) ;;
  Logger_ctor name s.

(** ** client.cpp at the root of the repository *)

Module RootClient.

(** [LogClient::writeLog] of client.cpp: [format_log] is not called, the
    [write] is given [log] as it came in, with its NUL. *)
Definition writeLog (level : Z) (log : bytes) (e : LogClient.net)
  : Z * option bytes :=
  if negb (LogClient.socket_errno e =? 0)%Z then ((-1)%Z, None)
  else if (LogClient.connect_ret e <? 0)%Z then ((-1)%Z, None)
  else
    let sent := firstn (length log + 1) (log ++ [NUL]) in
    if (LogClient.write_ret e <? 0)%Z then ((-1)%Z, Some sent)
    else (0%Z, Some sent).

End RootClient.

(** ** The two loops driven by a schedule *)

(** One turn of [Logger::start] on a connection, or one turn of
    [Logger::processQueue]. *)
Inductive turn : Type :=
| Accept (c : connection)
| Commit.

Section Schedule.

Variable LINE_MAX : nat.
Variable einval_on_no_conversion : bool.

(** The turns in the order given; the first one that ends the process
    ends the run. *)
Fixpoint run_turns (ts : list turn) (L : Logger) : outcome Logger :=
  match ts with
  | [] => Ret L
  | Accept c :: ts' =>
      L' <- start_turn LINE_MAX einval_on_no_conversion c L ;;
      run_turns ts' L'
  | Commit :: ts' =>
      L' <- processQueue_turn L ;; run_turns ts' L'
  end.

(** What the frame reader made of the connection [c]. *)
Definition log_of (c : connection) (l : log) : Prop :=
  read_connection LINE_MAX einval_on_no_conversion (junk c) (reads c) = Ret l.

End Schedule.

(** The connections of a schedule, in order. *)
Fixpoint accepts (ts : list turn) : list connection :=
  match ts with
  | [] => []
  | Accept c :: ts' => c :: accepts ts'
  | Commit :: ts' => accepts ts'
  end.

(** ** The parts of a written line *)

(** The prefix that the [switch] of [commitLog] puts before the message. *)
Definition label (level : Z) : bytes :=
  if (level =? INFO)%Z then lit "Info: "
  else if (level =? DEBUG)%Z then lit "Debug: "
  else if (level =? ERROR)%Z then lit "Error: "
  else [].

(** The sequence that the [switch] hands to [apply] on the terminal. *)
Definition colour (level : Z) : bytes :=
  if (level =? INFO)%Z then esc "[0;36m"
  else if (level =? DEBUG)%Z then esc "[0;93m"
  else if (level =? ERROR)%Z then esc "[0;91m"
  else esc "[0m".

(** [line] with a newline at its end, added when it has none. *)
Definition with_newline (line : bytes) : bytes :=
  if Ascii.eqb (last line NUL) LF then line else line ++ [LF].

(** The level numeral of the client helper has one to three bytes, none
    of them [':'] or NUL, and [strtol] reads the level back from it under
    either convention for [errno]. *)
Definition level_numeral_ok (n : nat) : bool :=
  let s := LogClient.to_string (Z.of_nat n) in
  forallb (fun c => negb (Ascii.eqb c COLON) && negb (Ascii.eqb c NUL)) s
  && (0 <? length s) && (length s <=? 3)
  && (let '(v, e) := strtol false s in (v =? Z.of_nat n)%Z && (e =? 0)%Z)
  && (let '(v, e) := strtol true s in (v =? Z.of_nat n)%Z && (e =? 0)%Z).

(** ** The setup of the constructor at a glance *)

(** The sink that the constructor settles on. *)
Definition sink_of (name : bytes) (s : setup) : Z :=
  if list_eq_dec ascii_dec name (lit "stdout") then STDOUT else open_ret s.

(** Every system call of the constructor that is made succeeds; [open] is
    not called for the name ["stdout"]. *)
Definition setup_ok (name : bytes) (s : setup) : bool :=
  (if list_eq_dec ascii_dec name (lit "stdout") then true
   else (0 <=? open_ret s)%Z)
  && (socket_errno s =? 0)%Z
  && (0 <=? setsockopt_ret s)%Z
  && (0 <=? bind_ret s)%Z
  && (0 <=? listen_ret s)%Z.

(** ** One send of the client helper as the service meets it *)

(** The connection that a successful [writeLog level message] of
    src/client.cpp makes, when its frame arrives in one chunk. *)
Definition client_connection (p : log) : connection :=
  mkConnection 0 0 [LogClient.format_log (fst p) (snd p) ++ [NUL]].

(** The line that a file gets for a log. *)
Definition file_line (p : log) : bytes :=
  with_newline (label (fst p) ++ snd p).

(** A send the service can take whole: a level from INFO to ERROR and a
    message without NUL that fits the buffer with its frame. *)
Definition good_send (LINE_MAX : nat) (p : log) : Prop :=
  (1 <= fst p <= 3)%Z /\ ~ In NUL (snd p) /\ length (snd p) + 5 < LINE_MAX.



(** * Properties *)

Lemma Ret_inj {A : Type} (a b : A) : Ret a = Ret b -> a = b.
Proof. now intros [= ->]. Qed.

(** ** C strings and the read buffer *)

Lemma c_str_app_NUL (a b : bytes) : c_str (a ++ NUL :: b) = c_str a.
Proof.
  induction a as [|c a IH]; simpl.
  - reflexivity.
  - destruct (Ascii.eqb c NUL); [reflexivity | now rewrite IH].
Qed.

Lemma c_str_zeros (a : bytes) (k : nat) : 0 < k -> c_str (a ++ zeros k) = c_str a.
Proof.
  destruct k as [|k]; [lia | intros _].
  unfold zeros; simpl. apply c_str_app_NUL.
Qed.

Lemma c_str_no_NUL (a : bytes) : ~ In NUL a -> c_str a = a.
Proof.
  induction a as [|c a IH]; simpl; intros H.
  - reflexivity.
  - destruct (Ascii.eqb_spec c NUL) as [->|_].
    + exfalso. apply H. now left.
    + f_equal. apply IH. intros Hin. apply H. now right.
Qed.

Lemma skipn_zeros (k n : nat) : skipn k (zeros n) = zeros (n - k).
Proof.
  revert k. induction n as [|n IH]; intros [|k]; simpl; try reflexivity.
  apply IH.
Qed.

Lemma read_into_zeros (chunk : bytes) (n : nat) :
  read_into chunk (zeros n) = chunk ++ zeros (n - length chunk).
Proof. unfold read_into. now rewrite skipn_zeros. Qed.

Lemma store_at_app (pre t : bytes) (c v : ascii) :
  store_at (length pre) v (pre ++ c :: t) = pre ++ v :: t.
Proof.
  unfold store_at.
  rewrite firstn_app, Nat.sub_diag, firstn_all, skipn_app, Nat.sub_diag.
  rewrite skipn_all. simpl. now rewrite app_nil_r.
Qed.

Lemma skipn_S_app (pre t : bytes) (v : ascii) :
  skipn (S (length pre)) (pre ++ v :: t) = t.
Proof.
  induction pre as [|c pre IH]; [reflexivity | exact IH].
Qed.

(** The scan stops at the first colon when it comes before the bound. *)
Lemma find_colon_hit (pre t : bytes) (n i : nat) :
  ~ In COLON pre -> length pre < n ->
  find_colon n (pre ++ COLON :: t) i = i + length pre.
Proof.
  revert n i. induction pre as [|c pre IH]; intros n i Hnot Hlen; simpl in *.
  - destruct n as [|n]; [lia|]. cbn [find_colon app].
    rewrite Ascii.eqb_refl. lia.
  - destruct n as [|n]; [lia|]. cbn [find_colon app].
    destruct (Ascii.eqb_spec c COLON) as [->|_].
    + exfalso. apply Hnot. now left.
    + rewrite IH; [lia | | lia]. intros Hin. apply Hnot. now right.
Qed.

(** The scan runs to the bound over an array that holds no colon. *)
Lemma find_colon_miss (p : bytes) (n i : nat) :
  ~ In COLON p -> n <= length p -> find_colon n p i = i + n.
Proof.
  revert n i. induction p as [|c p IH]; intros n i Hnot Hlen; simpl in *.
  - assert (n = 0) by lia. subst. simpl. lia.
  - destruct n as [|n]; cbn [find_colon]; [lia|].
    destruct (Ascii.eqb_spec c COLON) as [->|_].
    + exfalso. apply Hnot. now left.
    + rewrite IH; [lia | | lia]. intros Hin. apply Hnot. now right.
Qed.

Lemma zeros_no_colon (k : nat) : ~ In COLON (zeros k).
Proof.
  intros Hin. apply repeat_spec in Hin. discriminate Hin.
Qed.

(** ** The read loop *)

Section FrameReaderFacts.

Variable LINE_MAX : nat.
Variable einval_on_no_conversion : bool.

Local Abbreviation body := (read_body LINE_MAX einval_on_no_conversion).
Local Abbreviation loop := (read_loop LINE_MAX einval_on_no_conversion).
Local Abbreviation conn :=
  (read_connection LINE_MAX einval_on_no_conversion).
Local Abbreviation str := (strtol einval_on_no_conversion).

(** After the first chunk every pass appends the C string at [buf]. *)
Lemma read_loop_rest (rest : list bytes) (m : bytes) (l e : Z) :
  Forall (chunk_ok LINE_MAX) rest ->
  loop rest (mkFrame false m l (zeros LINE_MAX) e)
  = Ret (mkFrame false (m ++ concat (map c_str rest)) l (zeros LINE_MAX) e).
Proof.
  intros Hall. revert m. induction Hall as [|c rest [Hpos Hlt] _ IH]; intros m.
  - simpl. now rewrite app_nil_r.
  - cbn [read_loop map concat]. apply Nat.ltb_lt in Hpos as ->.
    unfold read_body; cbn [first_read buf msg level errno bind].
    rewrite read_into_zeros, c_str_zeros by lia.
    rewrite IH. now rewrite <- app_assoc.
Qed.

(** The first pass over a chunk that holds a colon. *)
Lemma read_body_first (pre post : bytes) (j : Z) :
  ~ In COLON pre -> chunk_ok LINE_MAX (pre ++ COLON :: post) ->
  body (pre ++ COLON :: post) (fresh LINE_MAX j)
  = (let '(l, e) := str (c_str pre) in
     _ <- assert (e =? 0)%Z ;;
     _ <- assert ((0 <=? l)%Z && (l <=? 3)%Z) ;;
     Ret (mkFrame false (c_str post) (to_uint8 l) (zeros LINE_MAX) e)).
Proof.
  intros Hnot [Hpos Hlt].
  rewrite length_app in Hlt; simpl in Hlt.
  unfold read_body, fresh;
    cbn [first_read buf msg level errno app].
  rewrite read_into_zeros, <- app_assoc, <- app_comm_cons.
  rewrite find_colon_hit by (assumption || lia). cbn [Nat.add].
  destruct (Nat.eqb_spec (length pre) LINE_MAX) as [Heq|_]; [lia|].
  rewrite store_at_app, skipn_S_app, c_str_app_NUL.
  rewrite c_str_zeros by (rewrite length_app; simpl; lia).
  destruct (str (c_str pre)) as [l e].
  destruct (Z.eqb_spec e 0) as [->|Hne]; cbn [assert bind Z.eqb].
  - reflexivity.
  - apply Z.eqb_neq in Hne. rewrite Hne. reflexivity.
Qed.

(** The whole connection, when the first chunk holds a colon. *)
Lemma read_connection_colon (pre post : bytes) (rest : list bytes) (j : Z) :
  ~ In COLON pre -> chunk_ok LINE_MAX (pre ++ COLON :: post) -> Forall (chunk_ok LINE_MAX) rest ->
  conn j ((pre ++ COLON :: post) :: rest)
  = (let '(l, e) := str (c_str pre) in
     _ <- assert (e =? 0)%Z ;;
     _ <- assert ((0 <=? l)%Z && (l <=? 3)%Z) ;;
     Ret (to_uint8 l, c_str post ++ concat (map c_str rest))).
Proof.
  intros Hnot Hok Hrest.
  unfold read_connection. cbn [read_loop].
  destruct Hok as [Hpos Hlt]. pose proof Hpos as Hpos'.
  apply Nat.ltb_lt in Hpos' as ->.
  rewrite read_body_first by (assumption || split; assumption).
  destruct (str (c_str pre)) as [l e].
  destruct (e =? 0)%Z; simpl; [|reflexivity].
  destruct ((0 <=? l)%Z && (l <=? 3)%Z); simpl; [|reflexivity].
  now rewrite read_loop_rest.
Qed.

(** The first pass over a chunk without a colon ends the process. *)
Lemma read_connection_no_colon (c : bytes) (rest : list bytes) (j : Z) :
  ~ In COLON c -> chunk_ok LINE_MAX c ->
  conn j (c :: rest) = Exit EXIT_FAILURE.
Proof.
  intros Hnot [Hpos Hlt].
  unfold read_connection. cbn [read_loop].
  pose proof Hpos as Hpos'. apply Nat.ltb_lt in Hpos' as ->.
  unfold read_body, fresh; simpl.
  rewrite read_into_zeros.
  rewrite find_colon_miss.
  - simpl. now rewrite Nat.eqb_refl.
  - intros Hin. apply in_app_or in Hin as [Hin|Hin]; [tauto|].
    now apply zeros_no_colon in Hin.
  - rewrite length_app. unfold zeros. rewrite repeat_length. lia.
Qed.

(** What one pass does to [first_read] and [level]. *)
Lemma read_body_level (c : bytes) (st st' : frame) :
  body c st = Ret st' ->
  first_read st' = false
  /\ (first_read st = true -> (0 <= level st' <= 3)%Z)
  /\ (first_read st = false -> level st' = level st).
Proof.
  unfold read_body.
  destruct (first_read st).
  - destruct (_ =? LINE_MAX); [discriminate|].
    destruct (str _) as [l e].
    destruct (_ =? 0)%Z; cbn [assert bind]; [|discriminate].
    destruct ((0 <=? l)%Z && (l <=? 3)%Z) eqn:Hrange;
      cbn [assert bind]; [|discriminate].
    intros [= <-]; cbn [first_read level].
    apply andb_prop in Hrange as [Hlo Hhi].
    apply Z.leb_le in Hlo, Hhi.
    split; [reflexivity|]. split; [intros _ | discriminate].
    unfold to_uint8. rewrite Z.mod_small; lia.
  - intros [= <-]; cbn [first_read level].
    split; [reflexivity|]. split; [discriminate | reflexivity].
Qed.

Lemma read_loop_keeps_level (rs : list bytes) (st st' : frame) :
  first_read st = false ->
  loop rs st = Ret st' -> level st' = level st.
Proof.
  revert st. induction rs as [|c rs IH]; intros st Hfr; cbn [read_loop].
  - now intros [= <-].
  - destruct (0 <? length c); [|now intros [= <-]].
    destruct (body c st) as [st1| | |] eqn:Hbody;
      cbn [bind]; try discriminate.
    intros Hloop.
    apply read_body_level in Hbody as (Hfr1 & _ & Hsame).
    rewrite (IH st1 Hfr1 Hloop). now apply Hsame.
Qed.

End FrameReaderFacts.

(** The level that passes both asserts is stored unchanged in a
    [uint8_t]. *)
Lemma to_uint8_level (l : Z) : (0 <= l <= 3)%Z -> to_uint8 l = l.
Proof. intros H. unfold to_uint8. apply Z.mod_small. lia. Qed.

(** A prefix that [strtol] turns into a number outside 0..3, or for which
    it reports an error, stops the process in [assert]; nothing is
    queued. *)
Lemma level_out_of_range_aborts
  (LINE_MAX : nat) (e : bool) (pre post : bytes) (rest : list bytes)
  (j l err : Z) (L : Logger) :
  ~ In COLON pre -> chunk_ok LINE_MAX (pre ++ COLON :: post) ->
  Forall (chunk_ok LINE_MAX) rest ->
  strtol e (c_str pre) = (l, err) ->
  (err <> 0 \/ l < 0 \/ 3 < l)%Z ->
  start_turn LINE_MAX e (mkConnection 0 j ((pre ++ COLON :: post) :: rest)) L
  = Abort.
Proof.
  intros Hnot Hok Hrest Hstr Hbad.
  unfold start_turn; cbn [accept_errno junk reads Z.eqb negb].
  rewrite read_connection_colon by assumption. rewrite Hstr.
  destruct (Z.eqb_spec err 0) as [->|Hne]; cbn [assert bind]; [|reflexivity].
  destruct Hbad as [Hbad|Hbad]; [congruence|].
  assert ((0 <=? l)%Z && (l <=? 3)%Z = false) as ->.
  { apply andb_false_iff. destruct Hbad; [left; apply Z.leb_gt | right; apply Z.leb_gt]; lia. }
  reflexivity.
Qed.

Example nine_test_aborts (j : Z) (L : Logger) :
  start_turn 2048 false (mkConnection 0 j [lit "9:test"]) L = Abort.
Proof. reflexivity. Qed.

(** ** Claims on the frame reader *)

(** C1 (the code departs from the claim).  The claim: a connection closed
    after zero bytes yields a parse failure and no log is queued.  The
    code: the read loop is not entered, and [start] queues the pair of the
    uninitialised [level] and the empty message. *)
Theorem C1_zero_bytes_log_queued
  (LINE_MAX : nat) (e : bool) (j : Z) (L : Logger) :
  read_connection LINE_MAX e j [] = Ret (j, [])
  /\ start_turn LINE_MAX e (mkConnection 0 j []) L = Ret (pushQueue (j, []) L)
  /\ logqueue (pushQueue (j, []) L) = logqueue L ++ [(j, [])].
Proof. repeat split. Qed.

(** C2 (the code departs from the claim).  The claim: a prefix that is not
    a decimal number in 0..3, such as a non-numeric one, is fatal and
    queues nothing.  The code: [strtol] reads the leading digits and
    ignores what follows, so ["1x:test"] is queued as INFO; where [strtol]
    leaves [errno] alone on no conversion, ["abc:test"] is queued as
    HEADER. *)
Theorem C2_non_numeric_prefix_queued
  (LINE_MAX : nat) (e : bool) (j : Z) (L : Logger) :
  8 < LINE_MAX ->
  decimal_value (lit "1x") = None
  /\ start_turn LINE_MAX e (mkConnection 0 j [lit "1x:test"]) L
     = Ret (pushQueue (INFO, lit "test") L)
  /\ decimal_value (lit "abc") = None
  /\ start_turn LINE_MAX false (mkConnection 0 j [lit "abc:test"]) L
     = Ret (pushQueue (HEADER, lit "test") L).
Proof.
  intros Hmax.
  assert (Hnil : Forall (chunk_ok LINE_MAX) []) by constructor.
  repeat split.
  - unfold start_turn; cbn [accept_errno junk reads Z.eqb negb].
    change (lit "1x:test") with (lit "1x" ++ COLON :: lit "test").
    rewrite read_connection_colon; try assumption.
    + destruct e; reflexivity.
    + intros [H|[H|[]]]; discriminate H.
    + split; simpl; lia.
  - unfold start_turn; cbn [accept_errno junk reads Z.eqb negb].
    change (lit "abc:test") with (lit "abc" ++ COLON :: lit "test").
    rewrite read_connection_colon; try assumption.
    + reflexivity.
    + intros [H|[H|[H|[]]]]; discriminate H.
    + split; simpl; lia.
Qed.

Lemma C2_non_numeric_prefix_queued_witness :
  8 < 2048
  /\ start_turn 2048 false (mkConnection 0 0%Z [lit "abc:test"])
       (mkLogger 3 [] [])
     = Ret (mkLogger 3 [(HEADER, lit "test")] []).
Proof.
  split; [lia|].
  apply (C2_non_numeric_prefix_queued 2048 false 0%Z (mkLogger 3 [] [])). lia.
Defined.

(** For every byte stream of at least one byte, a log that the frame
    reader produces has its severity in 0..3. *)
Lemma parsed_level_in_range
  (LINE_MAX : nat) (e : bool) (j : Z) (c : bytes) (rest : list bytes)
  (l : Z) (m : bytes) :
  0 < length c ->
  read_connection LINE_MAX e j (c :: rest) = Ret (l, m) ->
  l = HEADER \/ l = INFO \/ l = DEBUG \/ l = ERROR.
Proof.
  intros Hpos. unfold read_connection. cbn [read_loop].
  apply Nat.ltb_lt in Hpos as ->.
  destruct (read_body LINE_MAX e c (fresh LINE_MAX j)) as [st1| | |] eqn:Hbody;
    cbn [bind]; try discriminate.
  destruct (read_loop LINE_MAX e rest st1) as [st2| | |] eqn:Hloop;
    cbn [bind]; try discriminate.
  intros [= <- _].
  apply read_body_level in Hbody as (Hfr & Hrange & _).
  apply read_loop_keeps_level in Hloop; [|exact Hfr]. rewrite Hloop.
  specialize (Hrange eq_refl). unfold HEADER, INFO, DEBUG, ERROR. lia.
Qed.


(** C3 (the code departs from the claim).  The claim: no record parsed
    from a client has severity HEADER, the wire levels being INFO, DEBUG
    and ERROR as the header comment of logserver.hpp lists them.  The code:
    the lower bound of [assert(l >= 0 && l <= 3)] lets the digit 0 pass, so
    every frame ["0:..."] of a client is queued with severity HEADER. *)
Theorem C3_header_digit_queued
  (LINE_MAX : nat) (e : bool) (j : Z) (post : bytes) (rest : list bytes)
  (L : Logger) :
  chunk_ok LINE_MAX (lit "0" ++ COLON :: post) ->
  Forall (chunk_ok LINE_MAX) rest ->
  start_turn LINE_MAX e
    (mkConnection 0 j ((lit "0" ++ COLON :: post) :: rest)) L
  = Ret (pushQueue (HEADER, c_str post ++ concat (map c_str rest)) L)
  /\ HEADER <> INFO /\ HEADER <> DEBUG /\ HEADER <> ERROR.
Proof.
  intros Hok Hrest. split; [|repeat split; discriminate].
  unfold start_turn; cbn [accept_errno junk reads Z.eqb negb].
  rewrite read_connection_colon; try assumption.
  - destruct e; reflexivity.
  - intros [H|[]]; discriminate H.
Qed.

Lemma C3_header_digit_queued_witness :
  start_turn 2048 false (mkConnection 0 0%Z [lit "0:x"]) (mkLogger 3 [] [])
  = Ret (mkLogger 3 [(HEADER, lit "x")] []).
Proof.
  refine (proj1 (C3_header_digit_queued 2048 false 0%Z (lit "x") []
                   (mkLogger 3 [] []) _ _)).
  - split; simpl; lia.
  - constructor.
Defined.

(** C7, as the claim states it, fails: of the frame that the client helper
    sends for INFO and ["hello"], whose last byte is NUL, the byte after
    ["hello"] is not in the message. *)
Lemma C7_nul_byte_dropped :
  snd (LogClient.writeLog INFO (lit "hello") (LogClient.mkNet 0 0 8))
  = Some (lit "1:hello" ++ [NUL])
  /\ read_connection 2048 false 0%Z [lit "1:hello" ++ [NUL]]
     = Ret (INFO, lit "hello")
  /\ lit "hello" <> lit "hello" ++ [NUL].
Proof. repeat split; discriminate. Qed.

(** C7, amended.  When the first chunk has its first [':'] after [pre] and
    the level is accepted, the message is the bytes after the [':'] up to
    the first NUL of that chunk, followed by every later chunk up to its
    first NUL, in order; when no chunk holds a NUL these are all the bytes
    after the [':'] and all the bytes of the later chunks. *)
Theorem C7_message_bytes
  (LINE_MAX : nat) (e : bool) (j l : Z) (pre post : bytes)
  (rest : list bytes) :
  ~ In COLON pre ->
  chunk_ok LINE_MAX (pre ++ COLON :: post) ->
  Forall (chunk_ok LINE_MAX) rest ->
  strtol e (c_str pre) = (l, 0%Z) ->
  (0 <= l <= 3)%Z ->
  read_connection LINE_MAX e j ((pre ++ COLON :: post) :: rest)
  = Ret (l, c_str post ++ concat (map c_str rest))
  /\ (~ In NUL post -> Forall (fun c => ~ In NUL c) rest ->
      c_str post ++ concat (map c_str rest) = post ++ concat rest).
Proof.
  intros Hnot Hok Hrest Hstr Hrange. split.
  - rewrite read_connection_colon by assumption. rewrite Hstr.
    cbn [Z.eqb assert bind].
    assert ((0 <=? l)%Z && (l <=? 3)%Z = true) as ->.
    { apply andb_true_intro. split; apply Z.leb_le; lia. }
    cbn [assert bind]. now rewrite to_uint8_level.
  - intros Hpost Hall. rewrite c_str_no_NUL by assumption. f_equal.
    clear Hrest. induction Hall as [|c cs Hc _ IH]; cbn [map concat]; [reflexivity|].
    rewrite (c_str_no_NUL c) by assumption. now rewrite IH.
Qed.

Lemma C7_message_bytes_witness :
  read_connection 2048 false 0%Z [lit "2:disk "; lit "full"]
  = Ret (DEBUG, lit "disk full").
Proof.
  refine (proj1 (C7_message_bytes 2048 false 0%Z DEBUG
                   (lit "2") (lit "disk ") [lit "full"] _ _ _ _ _)).
  - intros [H|[]]; discriminate H.
  - split; simpl; lia.
  - constructor; [split; simpl; lia | constructor].
  - reflexivity.
  - unfold DEBUG. lia.
Defined.

(** C9.  When the first chunk of an accepted connection holds no [':'],
    the turn of [start] ends in [exit(EXIT_FAILURE)], a nonzero status,
    and so yields no Logger with a longer queue. *)
Theorem C9_no_colon_exit_failure
  (LINE_MAX : nat) (e : bool) (j : Z) (c : bytes) (rest : list bytes)
  (L : Logger) :
  chunk_ok LINE_MAX c ->
  ~ In COLON c ->
  start_turn LINE_MAX e (mkConnection 0 j (c :: rest)) L = Exit EXIT_FAILURE
  /\ EXIT_FAILURE <> 0%Z
  /\ (forall L',
        start_turn LINE_MAX e (mkConnection 0 j (c :: rest)) L <> Ret L').
Proof.
  intros Hok Hnot.
  assert (Hexit : start_turn LINE_MAX e (mkConnection 0 j (c :: rest)) L
                  = Exit EXIT_FAILURE).
  { unfold start_turn; cbn [accept_errno junk reads Z.eqb negb].
    now rewrite read_connection_no_colon. }
  repeat split; [assumption | discriminate |].
  intros L'. rewrite Hexit. discriminate.
Qed.

Lemma C9_no_colon_exit_failure_witness :
  start_turn 2048 false (mkConnection 0 0%Z [lit "hello"]) (mkLogger 3 [] [])
  = Exit EXIT_FAILURE.
Proof.
  refine (proj1 (C9_no_colon_exit_failure 2048 false 0%Z
                   (lit "hello") [] (mkLogger 3 [] []) _ _)).
  - split; simpl; lia.
  - simpl. intros H. decompose [or] H; discriminate || assumption.
Defined.

(** ** The handoff queue *)

Lemma popQueue_head (f : Z) (l : log) (q : list log) (w : list bytes) :
  popQueue (mkLogger f (l :: q) w) = Ret (l, mkLogger f q w).
Proof. reflexivity. Qed.

(** A guarded schedule runs to its end, and what it popped, followed by
    what is left in the queue, is what was in the queue followed by what
    it pushed. *)
Lemma run_queue_guarded (ops : list queue_op) :
  forall (popped : list log) (L : Logger),
    guarded ops (length (logqueue L)) = true ->
    exists popped' L',
      run_queue ops popped L = Ret (popped', L')
      /\ popped' ++ logqueue L' = popped ++ logqueue L ++ pushes ops
      /\ length popped' = length popped + pops ops.
Proof.
  induction ops as [|[l|] ops IH]; intros popped L Hg; cbn [run_queue pushes pops].
  - exists popped, L. rewrite app_nil_r. auto.
  - destruct (IH popped (pushQueue l L)) as (p' & L' & Hrun & Hfifo & Hlen).
    + cbn [pushQueue logqueue]. rewrite length_app, Nat.add_comm. exact Hg.
    + exists p', L'. repeat split; try assumption.
      rewrite Hfifo. cbn [pushQueue logqueue]. now rewrite <- app_assoc.
  - destruct L as [f [|l q] w]; cbn [guarded logqueue length] in Hg;
      [discriminate|].
    rewrite popQueue_head. cbn [bind fst snd].
    destruct (IH (popped ++ [l]) (mkLogger f q w) Hg)
      as (p' & L' & Hrun & Hfifo & Hlen).
    exists p', L'. repeat split; try assumption.
    + rewrite Hfifo. cbn [logqueue]. now rewrite <- app_assoc.
    + rewrite Hlen, length_app. simpl. lia.
Qed.

(** C4.  [popQueue] removes and returns the head of the queue; and over
    every schedule of pushes and pops on an empty queue in which no pop
    meets an empty queue, the logs popped, in the order popped, followed by
    the logs still queued, are the logs pushed, in the order pushed: each
    pop returned one log, none is lost and none comes twice.  Once the
    queue is drained the popped logs are exactly the pushed ones. *)
Theorem C4_queue_fifo (ops : list queue_op) (L0 : Logger) :
  logqueue L0 = [] ->
  guarded ops 0 = true ->
  (forall f l q w, popQueue (mkLogger f (l :: q) w) = Ret (l, mkLogger f q w))
  /\ exists popped L,
       run_queue ops [] L0 = Ret (popped, L)
       /\ popped ++ logqueue L = pushes ops
       /\ length popped = pops ops
       /\ (logqueue L = [] -> popped = pushes ops).
Proof.
  intros Hempty Hg. split; [intros; apply popQueue_head|].
  destruct (run_queue_guarded ops [] L0) as (p & L & Hrun & Hfifo & Hlen).
  - now rewrite Hempty.
  - rewrite Hempty in Hfifo. cbn [app length] in Hfifo, Hlen.
    exists p, L. repeat split; try assumption.
    intros Hq. rewrite Hq, app_nil_r in Hfifo. exact Hfifo.
Qed.

Lemma C4_queue_fifo_witness :
  exists popped L,
    run_queue sample_schedule [] (mkLogger 3 [] []) = Ret (popped, L)
    /\ popped ++ logqueue L = pushes sample_schedule
    /\ length popped = pops sample_schedule
    /\ (logqueue L = [] -> popped = pushes sample_schedule).
Proof.
  apply (C4_queue_fifo sample_schedule (mkLogger 3 [] [])); reflexivity.
Defined.

(** ** commitLog *)

Lemma commitLog_formatted (level : Z) (message : bytes) (L : Logger) :
  commitLog level message L
  = (out <- formatted (file L) (level, message) ;;
     Ret (mkLogger (file L) (logqueue L) (written L ++ [out]))).
Proof.
  unfold commitLog, formatted; cbn [fst snd].
  destruct (colour_switch (file L) level message); cbn [bind]; reflexivity.
Qed.

Lemma last_app_LF (m : bytes) : last (m ++ [LF]) NUL = LF.
Proof. apply last_last. Qed.

(** Lines 206-212 on a non-empty line: one newline is appended unless the
    line ends in one, and the result ends in a newline either way. *)
Lemma terminate_line_newline (f : Z) (m : bytes) :
  let line := if (f =? STDOUT)%Z then m ++ esc "[0m" else m in
  line <> [] ->
  exists out,
    terminate_line f m = Ret out
    /\ out = (if Ascii.eqb (last line NUL) LF then line else line ++ [LF])
    /\ last out NUL = LF.
Proof.
  intros line Hne. unfold terminate_line. fold line.
  destruct line as [|c line'] eqn:Hline; [congruence|].
  destruct (Ascii.eqb_spec (last (c :: line') NUL) LF) as [Heq|Hneq].
  - eexists. repeat split. exact Heq.
  - eexists. repeat split. apply last_app_LF.
Qed.

(** src/server.cpp: every log of a known level whose line is not empty is
    written with a newline at its end, appended only when missing. *)
Lemma commitLog_newline (level : Z) (message m : bytes) (L : Logger) :
  colour_switch (file L) level message = Ret m ->
  let line := if (file L =? STDOUT)%Z then m ++ esc "[0m" else m in
  line <> [] ->
  exists out,
    commitLog level message L
    = Ret (mkLogger (file L) (logqueue L) (written L ++ [out]))
    /\ out = (if Ascii.eqb (last line NUL) LF then line else line ++ [LF])
    /\ last out NUL = LF.
Proof.
  intros Hsw line Hne.
  destruct (terminate_line_newline (file L) m Hne) as (out & Hterm & Hout & Hlast).
  exists out. repeat split; try assumption.
  unfold commitLog. rewrite Hsw. cbn [bind]. rewrite Hterm. reflexivity.
Qed.

(** C5.  Committing INFO, ["hello"] writes ["Info: hello\n"] to a sink
    that is not the terminal.  To the terminal it writes the cyan sequence,
    ["Info: hello"] and the reset, that is the text as wrapped by [apply],
    followed by the closing reset of line 207 and the newline. *)
Theorem C5_info_hello (f : Z) (q : list log) (w : list bytes) :
  f <> STDOUT ->
  commitLog INFO (lit "hello") (mkLogger f q w)
  = Ret (mkLogger f q (w ++ [lit "Info: hello" ++ [LF]]))
  /\ commitLog INFO (lit "hello") (mkLogger STDOUT q w)
     = Ret (mkLogger STDOUT q
              (w ++ [(ESC :: lit "[0;36m") ++ lit "Info: hello"
                     ++ (ESC :: lit "[0m") ++ (ESC :: lit "[0m") ++ [LF]])).
Proof.
  intros Hf. apply Z.eqb_neq in Hf. split.
  - unfold commitLog, colour_switch, terminate_line; cbn [file logqueue written].
    rewrite Hf. reflexivity.
  - reflexivity.
Qed.

Lemma C5_info_hello_witness :
  commitLog INFO (lit "hello") (mkLogger 3 [] [])
  = Ret (mkLogger 3 [] [lit "Info: hello" ++ [LF]]).
Proof.
  refine (proj1 (C5_info_hello 3 [] [] _)). discriminate.
Defined.

(** C6 (the code departs from the claim).  The claim: every committed log
    is written with a newline at its end.  The [commitLog] of service.cpp
    has no newline step: INFO, ["hello"] goes to a file as ["Info: hello"],
    where the [commitLog] of src/server.cpp writes ["Info: hello\n"].  In
    src/server.cpp itself the newline test reads before the start of an
    empty line, which HEADER with an empty message gives on a file. *)
Theorem C6_service_cpp_no_newline (name : bytes) :
  Service.commitLog (Service.fopened name) INFO (lit "hello")
  = Ret (lit "Info: hello")
  /\ last (lit "Info: hello") NUL <> LF
  /\ commitLog INFO (lit "hello") (mkLogger 3 [] [])
     = Ret (mkLogger 3 [] [lit "Info: hello" ++ [LF]])
  /\ commitLog HEADER [] (mkLogger 3 [] []) = Undefined.
Proof. repeat split. discriminate. Qed.

(** ** The banner is the first write *)

Lemma formatted_header (f : Z) : formatted f (HEADER, header) = Ret (banner f).
Proof.
  unfold formatted, banner, colour_switch, terminate_line; cbn [fst snd bind].
  destruct (f =? STDOUT)%Z; cbn [Z.eqb HEADER bind]; reflexivity.
Qed.

Lemma Logger_ctor_state (name : bytes) (s : setup) (L0 : Logger) :
  Logger_ctor name s = Ret L0 ->
  logqueue L0 = [(HEADER, header)] /\ written L0 = [].
Proof.
  unfold Logger_ctor.
  destruct (file <- _ ;; _) eqn:Hctor; try discriminate.
  revert Hctor.
  destruct (if list_eq_dec ascii_dec name (lit "stdout") then _ else _)
    as [f| | |]; cbn [bind]; try discriminate.
  destruct (negb _); [discriminate|].
  destruct (setsockopt_ret s <? 0)%Z; [discriminate|].
  destruct (bind_ret s <? 0)%Z; [discriminate|].
  destruct (listen_ret s <? 0)%Z; [discriminate|].
  intros [= <-] [= <-]. split; reflexivity.
Qed.

(** ** The client helper *)

Lemma decimal_ok_all : forallb decimal_ok (seq 0 256) = true.
Proof. vm_compute. reflexivity. Qed.

(** [std::to_string] of a [uint8_t] is its decimal numeral. *)
Lemma to_string_decimal (level : Z) :
  (0 <= level < 256)%Z ->
  decimal_value (LogClient.to_string level) = Some level.
Proof.
  intros Hrange.
  pose proof decimal_ok_all as Hall.
  rewrite forallb_forall in Hall.
  specialize (Hall (Z.to_nat level)).
  unfold decimal_ok in Hall. rewrite Z2Nat.id in Hall by lia.
  destruct (decimal_value (LogClient.to_string level)) as [v|].
  - f_equal. apply Z.eqb_eq. apply Hall. apply in_seq. lia.
  - discriminate Hall. apply in_seq. lia.
Qed.

(** C10.  A call of [writeLog] that gets past [socket] and [connect] gives
    its one [write] the decimal numeral of the level, a [':'], the bytes of
    the message and one NUL: the string that [format_log] left in [log],
    and one byte more than its size. *)
Theorem C10_writeLog_frame
  (level : Z) (message : bytes) (e : LogClient.net) :
  (0 <= level < 256)%Z ->
  LogClient.socket_errno e = 0%Z ->
  (0 <= LogClient.connect_ret e)%Z ->
  exists r sent,
    LogClient.writeLog level message e = (r, Some sent)
    /\ sent = LogClient.to_string level ++ [COLON] ++ message ++ [NUL]
    /\ decimal_value (LogClient.to_string level) = Some level
    /\ sent = LogClient.format_log level message ++ [NUL]
    /\ length sent = length (LogClient.format_log level message) + 1
    /\ last sent COLON = NUL.
Proof.
  intros Hlevel Hsock Hconn.
  unfold LogClient.writeLog. rewrite Hsock. cbn [Z.eqb negb].
  apply Z.ltb_ge in Hconn. rewrite Hconn.
  set (log := LogClient.format_log level message).
  assert (Hsent : firstn (length log + 1) (log ++ [NUL]) = log ++ [NUL]).
  { apply firstn_all2. rewrite length_app. simpl. lia. }
  rewrite Hsent.
  exists (if (LogClient.write_ret e <? 0)%Z then (-1)%Z else 0%Z), (log ++ [NUL]).
  repeat split.
  - destruct (LogClient.write_ret e <? 0)%Z; reflexivity.
  - unfold log, LogClient.format_log. cbn [lit list_ascii_of_string].
    now rewrite <- !app_assoc.
  - now apply to_string_decimal.
  - rewrite length_app. reflexivity.
  - apply last_last.
Qed.

Lemma C10_writeLog_frame_witness :
  exists r sent,
    LogClient.writeLog INFO (lit "hello") (LogClient.mkNet 0 0 8)
    = (r, Some sent)
    /\ sent = LogClient.to_string INFO ++ [COLON] ++ lit "hello" ++ [NUL]
    /\ decimal_value (LogClient.to_string INFO) = Some INFO
    /\ sent = LogClient.format_log INFO (lit "hello") ++ [NUL]
    /\ length sent = length (LogClient.format_log INFO (lit "hello")) + 1
    /\ last sent COLON = NUL.
Proof.
  apply (C10_writeLog_frame INFO (lit "hello") (LogClient.mkNet 0 0 8)).
  - unfold INFO. lia.
  - reflexivity.
  - simpl. lia.
Defined.

(** * Further properties *)

(** ** strtol on a plain decimal numeral *)

Lemma isdigit_code (c : ascii) : isdigit c = true -> (48 <= code c <= 57)%Z.
Proof.
  unfold isdigit. intros H. apply andb_prop in H as [Hlo Hhi].
  apply Z.leb_le in Hlo, Hhi. lia.
Qed.

Lemma isdigit_not_space (c : ascii) : isdigit c = true -> isspace c = false.
Proof.
  intros H. apply isdigit_code in H. unfold isspace.
  apply orb_false_iff. split.
  - apply Z.eqb_neq. lia.
  - apply andb_false_iff. right. apply Z.leb_gt. lia.
Qed.

Lemma isdigit_not (c d : ascii) :
  isdigit c = true -> isdigit d = false -> Ascii.eqb c d = false.
Proof.
  intros Hc Hd. destruct (Ascii.eqb_spec c d) as [->|]; [congruence | reflexivity].
Qed.

Lemma digits_c_str (s : bytes) : forallb isdigit s = true -> c_str s = s.
Proof.
  induction s as [|c s IH]; cbn [forallb c_str]; [reflexivity|].
  intros H. apply andb_prop in H as [Hc Hs].
  rewrite (isdigit_not c NUL Hc eq_refl). now rewrite IH.
Qed.

(** A run of digits is read to its end, and never to a negative value. *)
Lemma digit_run_digits (s : bytes) :
  forallb isdigit s = true ->
  forall (acc : Z) (seen : bool),
    (0 <= acc)%Z ->
    (0 <= fst (digit_run s acc seen))%Z
    /\ snd (digit_run s acc seen) = (seen || negb (length s =? 0)).
Proof.
  induction s as [|c s IH]; cbn [forallb digit_run length]; intros Hall acc seen Hacc.
  - cbn. split; [assumption | now rewrite orb_false_r].
  - apply andb_prop in Hall as [Hc Hs]. rewrite Hc.
    pose proof (isdigit_code c Hc) as Hcode.
    destruct (IH Hs (10 * acc + (code c - 48))%Z true ltac:(lia)) as [Hpos Hseen].
    split; [assumption|]. rewrite Hseen. cbn. now rewrite orb_true_r.
Qed.

Lemma strtol_decimal (e : bool) (s : bytes) (v : Z) :
  decimal_value s = Some v ->
  (v <= LONG_MAX)%Z ->
  strtol e (c_str s) = (v, 0%Z) /\ (0 <= v)%Z.
Proof.
  unfold decimal_value. destruct s as [|c s]; [discriminate|].
  destruct (forallb isdigit (c :: s)) eqn:Hall; [|discriminate].
  intros Hsome Hmax.
  assert (Hv : fst (digit_run (c :: s) 0%Z false) = v) by congruence.
  clear Hsome.
  destruct (digit_run_digits (c :: s) Hall 0%Z false ltac:(lia)) as [Hpos Hseen].
  rewrite digits_c_str by assumption.
  pose proof Hall as Hall'. cbn [forallb] in Hall'.
  apply andb_prop in Hall' as [Hc _].
  unfold strtol. cbn [skip_space]. rewrite (isdigit_not_space c Hc).
  rewrite (isdigit_not c "-" Hc eq_refl), (isdigit_not c "+" Hc eq_refl).
  destruct (digit_run (c :: s) 0 false) as [mag seen].
  cbn [fst snd] in *. subst mag. rewrite Hseen. cbn [length Nat.eqb negb orb].
  assert ((LONG_MAX <? v)%Z = false) as -> by (apply Z.ltb_ge; lia).
  assert ((v <? LONG_MIN)%Z = false) as ->
    by (apply Z.ltb_ge; unfold LONG_MIN; lia).
  split; [reflexivity | assumption].
Qed.

(** ** main.cpp *)

(** X1.  [get_port] on a plain decimal numeral of a value up to 65535
    returns that value; on a numeral of a larger value it dies in
    [assert]. *)
Theorem X1_get_port_numeral (e : bool) (port_string : bytes) (v : Z) :
  decimal_value port_string = Some v ->
  ((v <= 65535)%Z -> get_port e port_string = Ret v)
  /\ ((65535 < v)%Z -> get_port e port_string = Abort).
Proof.
  intros Hdec. split; intros Hv; unfold get_port.
  - destruct (strtol_decimal e port_string v Hdec) as [-> Hpos];
      [unfold LONG_MAX; lia|].
    cbn [Z.eqb assert bind].
    assert ((0 <=? v)%Z && (v <=? 65535)%Z = true) as ->.
    { apply andb_true_intro. split; apply Z.leb_le; lia. }
    cbn [assert bind]. now rewrite Z.mod_small by lia.
  - destruct (Z.le_gt_cases v LONG_MAX) as [Hle|Hgt].
    + destruct (strtol_decimal e port_string v Hdec Hle) as [-> Hpos].
      cbn [Z.eqb assert bind].
      assert ((0 <=? v)%Z && (v <=? 65535)%Z = false) as ->.
      { apply andb_false_iff. right. apply Z.leb_gt. lia. }
      reflexivity.
    + (* beyond LONG_MAX: strtol stores ERANGE *)
      unfold decimal_value in Hdec. destruct port_string as [|c s]; [discriminate|].
      destruct (forallb isdigit (c :: s)) eqn:Hall; [|discriminate].
      assert (Hrun : fst (digit_run (c :: s) 0%Z false) = v) by congruence.
      clear Hdec.
      destruct (digit_run_digits (c :: s) Hall 0%Z false ltac:(lia)) as [_ Hseen].
      rewrite digits_c_str by assumption.
      pose proof Hall as Hall'. cbn [forallb] in Hall'.
      apply andb_prop in Hall' as [Hc _].
      unfold strtol. cbn [skip_space]. rewrite (isdigit_not_space c Hc).
      rewrite (isdigit_not c "-" Hc eq_refl), (isdigit_not c "+" Hc eq_refl).
      destruct (digit_run (c :: s) 0 false) as [mag seen].
      cbn [fst snd] in *. subst mag. rewrite Hseen. cbn [length Nat.eqb negb orb].
      assert ((LONG_MAX <? v)%Z = true) as -> by (apply Z.ltb_lt; lia).
      reflexivity.
Qed.

Lemma X1_get_port_numeral_witness :
  get_port false (lit "8080") = Ret 8080%Z
  /\ get_port false (lit "65536") = Abort.
Proof.
  split.
  - refine (proj1 (X1_get_port_numeral false (lit "8080") 8080%Z eq_refl) _). lia.
  - refine (proj2 (X1_get_port_numeral false (lit "65536") 65536%Z eq_refl) _). lia.
Defined.

(** X2.  Whatever its argument, [get_port] either returns a port in
    0..65535 or dies in [assert]: it never calls [exit] and never returns a
    value out of range. *)
Theorem X2_get_port_range (e : bool) (port_string : bytes) :
  (exists p, get_port e port_string = Ret p /\ (0 <= p <= 65535)%Z
             /\ fst (strtol e (c_str port_string)) = p)
  \/ get_port e port_string = Abort.
Proof.
  unfold get_port. destruct (strtol e (c_str port_string)) as [port err].
  destruct (err =? 0)%Z; cbn [assert bind]; [|now right].
  destruct ((0 <=? port)%Z && (port <=? 65535)%Z) eqn:Hr;
    cbn [assert bind]; [|now right].
  apply andb_prop in Hr as [Hlo Hhi]. apply Z.leb_le in Hlo, Hhi.
  left. exists port. rewrite Z.mod_small by lia. cbn [fst]. repeat split; lia.
Qed.

(** X3.  Where [strtol] leaves [errno] alone when it converts nothing,
    a port argument that is empty or starts with a byte that is neither
    white space, a sign nor a digit is taken as port 0. *)
Theorem X3_get_port_no_digits (port_string : bytes) :
  match port_string with
  | [] => True
  | c :: _ =>
      isspace c = false /\ isdigit c = false
      /\ c <> "-"%char /\ c <> "+"%char
  end ->
  get_port false port_string = Ret 0%Z.
Proof.
  destruct port_string as [|c s].
  - reflexivity.
  - intros (Hsp & Hdg & Hm & Hp).
    unfold get_port. cbn [c_str].
    destruct (Ascii.eqb c NUL) eqn:Hnul; [reflexivity|].
    unfold strtol. cbn [skip_space]. rewrite Hsp.
    apply Ascii.eqb_neq in Hm, Hp. rewrite Hm, Hp.
    cbn [digit_run]. rewrite Hdg. reflexivity.
Qed.

Lemma X3_get_port_no_digits_witness : get_port false (lit "http") = Ret 0%Z.
Proof.
  apply (X3_get_port_no_digits (lit "http")).
  repeat split; discriminate.
Defined.

(** X4.  The constructor leaves a Logger for the two threads exactly when
    every setup call it makes succeeds, and that Logger has the banner as
    its only queued log and nothing written; any failing call ends the
    process in [exit(EXIT_FAILURE)] with no log queued.  The name
    ["stdout"] selects the terminal without a call of [open]. *)
Theorem X4_Logger_ctor_outcome (name : bytes) (s : setup) :
  Logger_ctor name s
  = if setup_ok name s
    then Ret (mkLogger (sink_of name s) [(HEADER, header)] [])
    else Exit EXIT_FAILURE.
Proof.
  unfold Logger_ctor, setup_ok, sink_of.
  destruct (list_eq_dec ascii_dec name (lit "stdout")) as [_|_]; cbn [bind andb].
  - destruct (socket_errno s =? 0)%Z; cbn [negb andb]; [|reflexivity].
    rewrite !Z.leb_antisym.
    destruct (setsockopt_ret s <? 0)%Z; cbn [negb andb]; [reflexivity|].
    destruct (bind_ret s <? 0)%Z; cbn [negb andb]; [reflexivity|].
    destruct (listen_ret s <? 0)%Z; reflexivity.
  - rewrite !Z.leb_antisym.
    destruct (open_ret s <? 0)%Z; cbn [bind negb andb]; [reflexivity|].
    destruct (socket_errno s =? 0)%Z; cbn [negb andb]; [|reflexivity].
    destruct (setsockopt_ret s <? 0)%Z; cbn [negb andb]; [reflexivity|].
    destruct (bind_ret s <? 0)%Z; cbn [negb andb]; [reflexivity|].
    destruct (listen_ret s <? 0)%Z; reflexivity.
Qed.

Lemma get_port_Ret_range (e : bool) (port_string : bytes) (p : Z) :
  get_port e port_string = Ret p -> (0 <= p <= 65535)%Z.
Proof.
  unfold get_port. destruct (strtol e (c_str port_string)) as [port err].
  destruct (err =? 0)%Z; cbn [assert bind]; [|discriminate].
  destruct ((0 <=? port)%Z && (port <=? 65535)%Z) eqn:Hr;
    cbn [assert bind]; [|discriminate].
  apply andb_prop in Hr as [Hlo Hhi]. apply Z.leb_le in Hlo, Hhi.
  intros [= <-]. rewrite Z.mod_small; lia.
Qed.

(** X5.  [main] gets to a running service only with exactly two arguments,
    a port that [get_port] accepts and a constructor that gets through its
    setup on [argv[1]]; then the banner is the one queued log and nothing
    is written.  With another argument count it dies in [assert] whatever
    the arguments and the setup are. *)
Theorem X5_main_outcome (e : bool) (argv : list bytes) (s : setup) :
  (forall L,
      main e argv s = Ret L ->
      length argv = 3
      /\ (exists p, get_port e (nth 2 argv []) = Ret p /\ (0 <= p <= 65535)%Z)
      /\ Logger_ctor (nth 1 argv []) s = Ret L
      /\ logqueue L = [(HEADER, header)]
      /\ written L = [])
  /\ (length argv <> 3 -> main e argv s = Abort).
Proof.
  unfold main. split.
  - intros L. destruct (Nat.eqb_spec (length argv) 3) as [Hlen|];
      cbn [assert bind]; [|discriminate].
    destruct (get_port e (nth 2 argv [])) as [p| | |] eqn:Hp;
      cbn [bind]; try discriminate.
    intros Hctor. split; [assumption|]. split.
    + exists p. split; [reflexivity|]. now apply get_port_Ret_range in Hp.
    + split; [assumption|]. now apply Logger_ctor_state in Hctor.
  - intros Hlen. apply Nat.eqb_neq in Hlen. now rewrite Hlen.
Qed.

Lemma X5_main_outcome_witness :
  main false [lit "./logger"; lit "app.log"] (mkSetup 3 0 0 0 0) = Abort.
Proof.
  refine (proj2 (X5_main_outcome false [lit "./logger"; lit "app.log"]
                   (mkSetup 3 0 0 0 0)) _).
  simpl. lia.
Defined.

(** ** The frame reader, further *)

Lemma strtol_decimal_overflow (e : bool) (s : bytes) (v : Z) :
  decimal_value s = Some v ->
  (LONG_MAX < v)%Z ->
  strtol e (c_str s) = (LONG_MAX, ERANGE).
Proof.
  unfold decimal_value. destruct s as [|c s]; [discriminate|].
  destruct (forallb isdigit (c :: s)) eqn:Hall; [|discriminate].
  intros Hsome Hbig.
  assert (Hrun : fst (digit_run (c :: s) 0%Z false) = v) by congruence.
  clear Hsome.
  destruct (digit_run_digits (c :: s) Hall 0%Z false ltac:(lia)) as [_ Hseen].
  rewrite digits_c_str by assumption.
  pose proof Hall as Hall'. cbn [forallb] in Hall'.
  apply andb_prop in Hall' as [Hc _].
  unfold strtol. cbn [skip_space]. rewrite (isdigit_not_space c Hc).
  rewrite (isdigit_not c "-" Hc eq_refl), (isdigit_not c "+" Hc eq_refl).
  destruct (digit_run (c :: s) 0 false) as [mag seen].
  cbn [fst snd] in *. subst mag. rewrite Hseen. cbn [length Nat.eqb negb orb].
  assert ((LONG_MAX <? v)%Z = true) as -> by (apply Z.ltb_lt; lia).
  reflexivity.
Qed.

Lemma digits_no_colon (s : bytes) : forallb isdigit s = true -> ~ In COLON s.
Proof.
  intros Hall Hin. rewrite forallb_forall in Hall.
  specialize (Hall COLON Hin). discriminate Hall.
Qed.

Lemma decimal_value_digits (s : bytes) (v : Z) :
  decimal_value s = Some v -> forallb isdigit s = true.
Proof.
  unfold decimal_value. destruct s as [|c s]; [discriminate|].
  destruct (forallb isdigit (c :: s)); [reflexivity | discriminate].
Qed.

Lemma concat_c_str_no_NUL (cs : list bytes) :
  Forall (fun c => ~ In NUL c) cs -> concat (map c_str cs) = concat cs.
Proof.
  induction 1 as [|c cs Hc _ IH]; cbn [map concat]; [reflexivity|].
  rewrite (c_str_no_NUL c) by assumption. now rewrite IH.
Qed.

(** X6.  A level written as a plain decimal numeral before the first
    [':'] is taken at its value when that is at most 3, leading zeros
    included; a numeral of a larger value, however long, stops the process
    in [assert]. *)
Theorem X6_level_numeral
  (LINE_MAX : nat) (e : bool) (j v : Z) (pre post : bytes)
  (rest : list bytes) :
  decimal_value pre = Some v ->
  chunk_ok LINE_MAX (pre ++ COLON :: post) ->
  Forall (chunk_ok LINE_MAX) rest ->
  ((v <= 3)%Z ->
   read_connection LINE_MAX e j ((pre ++ COLON :: post) :: rest)
   = Ret (v, c_str post ++ concat (map c_str rest)))
  /\ ((3 < v)%Z ->
      read_connection LINE_MAX e j ((pre ++ COLON :: post) :: rest) = Abort).
Proof.
  intros Hdec Hok Hrest.
  assert (Hnot : ~ In COLON pre).
  { apply digits_no_colon. eapply decimal_value_digits. eassumption. }
  rewrite read_connection_colon by assumption.
  split; intros Hv.
  - destruct (strtol_decimal e pre v Hdec) as [-> Hpos];
      [unfold LONG_MAX; lia|].
    cbn [Z.eqb assert bind].
    assert ((0 <=? v)%Z && (v <=? 3)%Z = true) as ->.
    { apply andb_true_intro. split; apply Z.leb_le; lia. }
    cbn [assert bind]. rewrite to_uint8_level by lia. reflexivity.
  - destruct (Z.le_gt_cases v LONG_MAX) as [Hle|Hgt].
    + destruct (strtol_decimal e pre v Hdec Hle) as [-> Hpos].
      cbn [Z.eqb assert bind].
      assert ((0 <=? v)%Z && (v <=? 3)%Z = false) as ->.
      { apply andb_false_iff. right. apply Z.leb_gt. lia. }
      reflexivity.
    + rewrite (strtol_decimal_overflow e pre v Hdec Hgt). reflexivity.
Qed.

Lemma X6_level_numeral_witness :
  read_connection 2048 false 0%Z [lit "003:disk full"]
  = Ret (ERROR, lit "disk full")
  /\ read_connection 2048 false 0%Z [lit "99999999999999999999:x"] = Abort.
Proof.
  split.
  - refine (proj1 (X6_level_numeral 2048 false 0%Z ERROR (lit "003")
                     (lit "disk full") [] eq_refl _ _) _).
    + split; simpl; lia.
    + constructor.
    + unfold ERROR. lia.
  - refine (proj2 (X6_level_numeral 2048 false 0%Z 99999999999999999999%Z
                     (lit "99999999999999999999") (lit "x") [] eq_refl _ _) _).
    + split; simpl; lia.
    + constructor.
    + lia.
Defined.

(** X7.  How the bytes after the first [':'] are cut into chunks does not
    matter to the outcome, as long as no chunk holds a NUL: two streams
    with the same level prefix and the same bytes after the [':'] give the
    same log, or end the process the same way. *)
Theorem X7_chunking_after_colon
  (LINE_MAX : nat) (e : bool) (j : Z) (pre post1 post2 : bytes)
  (rest1 rest2 : list bytes) :
  ~ In COLON pre ->
  chunk_ok LINE_MAX (pre ++ COLON :: post1) ->
  chunk_ok LINE_MAX (pre ++ COLON :: post2) ->
  Forall (chunk_ok LINE_MAX) rest1 ->
  Forall (chunk_ok LINE_MAX) rest2 ->
  Forall (fun c => ~ In NUL c) (post1 :: rest1) ->
  Forall (fun c => ~ In NUL c) (post2 :: rest2) ->
  post1 ++ concat rest1 = post2 ++ concat rest2 ->
  read_connection LINE_MAX e j ((pre ++ COLON :: post1) :: rest1)
  = read_connection LINE_MAX e j ((pre ++ COLON :: post2) :: rest2).
Proof.
  intros Hnot Hok1 Hok2 Hr1 Hr2 Hn1 Hn2 Hsame.
  rewrite !read_connection_colon by assumption.
  inversion Hn1 as [|? ? Hp1 Hrest1]; subst.
  inversion Hn2 as [|? ? Hp2 Hrest2]; subst.
  rewrite !concat_c_str_no_NUL by assumption.
  rewrite (c_str_no_NUL post1), (c_str_no_NUL post2) by assumption.
  now rewrite Hsame.
Qed.

Lemma X7_chunking_after_colon_witness :
  read_connection 2048 false 0%Z [lit "2:disk"; lit " fu"; lit "ll"]
  = read_connection 2048 false 0%Z [lit "2:disk full"].
Proof.
  apply (X7_chunking_after_colon 2048 false 0%Z (lit "2") (lit "disk")
           (lit "disk full") [lit " fu"; lit "ll"] []).
  - intros [H|[]]; discriminate H.
  - split; simpl; lia.
  - split; simpl; lia.
  - repeat (constructor; [split; simpl; lia|]). constructor.
  - constructor.
  - repeat (constructor;
            [intros H; simpl in H; decompose [or] H; discriminate || assumption|]).
    constructor.
  - repeat (constructor;
            [intros H; simpl in H; decompose [or] H; discriminate || assumption|]).
    constructor.
  - reflexivity.
Defined.

(** ** The client helper against the frame reader *)

Lemma level_numeral_all : forallb level_numeral_ok (seq 0 256) = true.
Proof. vm_compute. reflexivity. Qed.

(** The numeral that [format_log] writes for a [log_t]. *)
Lemma level_numeral (level : Z) :
  (0 <= level < 256)%Z ->
  ~ In COLON (LogClient.to_string level)
  /\ ~ In NUL (LogClient.to_string level)
  /\ 0 < length (LogClient.to_string level) <= 3
  /\ forall e, strtol e (LogClient.to_string level) = (level, 0%Z).
Proof.
  intros Hrange.
  pose proof level_numeral_all as Hall. rewrite forallb_forall in Hall.
  specialize (Hall (Z.to_nat level) ltac:(apply in_seq; lia)).
  unfold level_numeral_ok in Hall. rewrite Z2Nat.id in Hall by lia.
  set (s := LogClient.to_string level) in *.
  apply andb_prop in Hall as [Hall Htrue].
  apply andb_prop in Hall as [Hall Hfalse].
  apply andb_prop in Hall as [Hall Hle].
  apply andb_prop in Hall as [Hchars Hpos].
  rewrite forallb_forall in Hchars.
  apply Nat.ltb_lt in Hpos. apply Nat.leb_le in Hle.
  repeat split; try assumption.
  - intros Hin. specialize (Hchars _ Hin). discriminate Hchars.
  - intros Hin. specialize (Hchars _ Hin). discriminate Hchars.
  - intros [|].
    + destruct (strtol true s) as [v err].
      apply andb_prop in Htrue as [Hv Herr].
      apply Z.eqb_eq in Hv, Herr. now subst.
    + destruct (strtol false s) as [v err].
      apply andb_prop in Hfalse as [Hv Herr].
      apply Z.eqb_eq in Hv, Herr. now subst.
Qed.

(** What [writeLog] of src/client.cpp hands to [write] once [socket] and
    [connect] have succeeded. *)
Lemma writeLog_sent (level : Z) (message : bytes) (e : LogClient.net) :
  LogClient.socket_errno e = 0%Z ->
  (0 <= LogClient.connect_ret e)%Z ->
  snd (LogClient.writeLog level message e)
  = Some (LogClient.to_string level ++ COLON :: message ++ [NUL]).
Proof.
  intros Hsock Hconn. unfold LogClient.writeLog. rewrite Hsock.
  apply Z.ltb_ge in Hconn. rewrite Hconn. cbn [Z.eqb negb].
  rewrite firstn_all2 by (rewrite length_app; simpl; lia).
  unfold LogClient.format_log. cbn [lit list_ascii_of_string].
  rewrite <- !app_assoc.
  destruct (LogClient.write_ret e <? 0)%Z; reflexivity.
Qed.

(** The frame of the client helper, read by the service in one chunk. *)
Lemma read_client_frame
  (LINE_MAX : nat) (ev : bool) (j level : Z) (message : bytes) :
  (0 <= level < 256)%Z ->
  length message + 5 < LINE_MAX ->
  read_connection LINE_MAX ev j
    [LogClient.to_string level ++ COLON :: message ++ [NUL]]
  = (_ <- assert ((0 <=? level)%Z && (level <=? 3)%Z) ;;
     Ret (to_uint8 level, c_str message)).
Proof.
  intros Hlevel Hlen.
  destruct (level_numeral level Hlevel) as (Hcolon & Hnul & [Hpos Hle] & Hstr).
  rewrite read_connection_colon.
  - rewrite (c_str_no_NUL _ Hnul), Hstr. cbn [Z.eqb assert bind map concat].
    now rewrite c_str_app_NUL, app_nil_r.
  - assumption.
  - split; rewrite length_app; cbn [length]; rewrite length_app; simpl; lia.
  - constructor.
Qed.

(** X8.  Round trip from the client helper to the frame reader: for a
    level in 0..3 and a message that fits the buffer, the frame that
    [writeLog] of src/client.cpp sends is read back, when it arrives in one
    chunk, as that level and the message up to its first NUL; a message
    without NUL comes back whole. *)
Theorem X8_client_frame_round_trip
  (LINE_MAX : nat) (ev : bool) (j level : Z) (message : bytes)
  (e : LogClient.net) :
  (0 <= level <= 3)%Z ->
  LogClient.socket_errno e = 0%Z ->
  (0 <= LogClient.connect_ret e)%Z ->
  length message + 5 < LINE_MAX ->
  exists sent,
    snd (LogClient.writeLog level message e) = Some sent
    /\ read_connection LINE_MAX ev j [sent] = Ret (level, c_str message)
    /\ (~ In NUL message ->
        read_connection LINE_MAX ev j [sent] = Ret (level, message)).
Proof.
  intros Hlevel Hsock Hconn Hlen.
  exists (LogClient.to_string level ++ COLON :: message ++ [NUL]).
  assert (Hread : read_connection LINE_MAX ev j
                    [LogClient.to_string level ++ COLON :: message ++ [NUL]]
                  = Ret (level, c_str message)).
  { rewrite read_client_frame by lia.
    assert ((0 <=? level)%Z && (level <=? 3)%Z = true) as ->.
    { apply andb_true_intro. split; apply Z.leb_le; lia. }
    cbn [assert bind]. now rewrite to_uint8_level. }
  split; [now apply writeLog_sent|]. split; [exact Hread|].
  intros Hnul. rewrite (c_str_no_NUL message Hnul) in Hread. exact Hread.
Qed.

Lemma X8_client_frame_round_trip_witness :
  exists sent,
    snd (LogClient.writeLog DEBUG (lit "cache miss") (LogClient.mkNet 0 3 13))
    = Some sent
    /\ read_connection 2048 false 0%Z [sent]
       = Ret (DEBUG, c_str (lit "cache miss"))
    /\ (~ In NUL (lit "cache miss") ->
        read_connection 2048 false 0%Z [sent] = Ret (DEBUG, lit "cache miss")).
Proof.
  apply (X8_client_frame_round_trip 2048 false 0%Z DEBUG (lit "cache miss")
           (LogClient.mkNet 0 3 13)).
  - unfold DEBUG. lia.
  - reflexivity.
  - simpl. lia.
  - simpl. lia.
Defined.

(** X9.  A level from 4 to 255 passed to [writeLog] of src/client.cpp is
    sent as it is, and the frame stops the service in [assert]: the turn of
    [start] yields no Logger. *)
Theorem X9_client_level_above_3_aborts
  (LINE_MAX : nat) (ev : bool) (j level : Z) (message : bytes)
  (e : LogClient.net) (L : Logger) :
  (3 < level < 256)%Z ->
  LogClient.socket_errno e = 0%Z ->
  (0 <= LogClient.connect_ret e)%Z ->
  length message + 5 < LINE_MAX ->
  exists sent,
    snd (LogClient.writeLog level message e) = Some sent
    /\ start_turn LINE_MAX ev (mkConnection 0 j [sent]) L = Abort.
Proof.
  intros Hlevel Hsock Hconn Hlen.
  exists (LogClient.to_string level ++ COLON :: message ++ [NUL]).
  split; [now apply writeLog_sent|].
  unfold start_turn; cbn [accept_errno junk reads Z.eqb negb].
  rewrite read_client_frame by lia.
  assert ((0 <=? level)%Z && (level <=? 3)%Z = false) as ->.
  { apply andb_false_iff. right. apply Z.leb_gt. lia. }
  reflexivity.
Qed.

Lemma X9_client_level_above_3_aborts_witness :
  exists sent,
    snd (LogClient.writeLog 4 (lit "trace") (LogClient.mkNet 0 3 8)) = Some sent
    /\ start_turn 2048 false (mkConnection 0 0%Z [sent]) (mkLogger 3 [] [])
       = Abort.
Proof.
  apply (X9_client_level_above_3_aborts 2048 false 0%Z 4%Z (lit "trace")
           (LogClient.mkNet 0 3 8) (mkLogger 3 [] [])).
  - lia.
  - reflexivity.
  - simpl. lia.
  - simpl. lia.
Defined.

(** X10.  [writeLog] of the root client.cpp sends the message and its NUL
    and nothing of the level; when the message holds no [':'] the service
    that reads this frame ends in [exit(EXIT_FAILURE)]. *)
Theorem X10_root_client_frame_exits
  (LINE_MAX : nat) (ev : bool) (j level : Z) (message : bytes)
  (e : LogClient.net) (L : Logger) :
  LogClient.socket_errno e = 0%Z ->
  (0 <= LogClient.connect_ret e)%Z ->
  ~ In COLON message ->
  length message + 1 < LINE_MAX ->
  snd (RootClient.writeLog level message e) = Some (message ++ [NUL])
  /\ start_turn LINE_MAX ev (mkConnection 0 j [message ++ [NUL]]) L
     = Exit EXIT_FAILURE.
Proof.
  intros Hsock Hconn Hnot Hlen. split.
  - unfold RootClient.writeLog. rewrite Hsock.
    apply Z.ltb_ge in Hconn. rewrite Hconn. cbn [Z.eqb negb].
    rewrite firstn_all2 by (rewrite length_app; simpl; lia).
    destruct (LogClient.write_ret e <? 0)%Z; reflexivity.
  - unfold start_turn; cbn [accept_errno junk reads Z.eqb negb].
    rewrite read_connection_no_colon; [reflexivity | |].
    + intros Hin. apply in_app_or in Hin as [Hin|[Hin|[]]]; [tauto|].
      discriminate Hin.
    + split; rewrite length_app; simpl; lia.
Qed.

Lemma X10_root_client_frame_exits_witness :
  snd (RootClient.writeLog INFO (lit "hello") (LogClient.mkNet 0 3 6))
  = Some (lit "hello" ++ [NUL])
  /\ start_turn 2048 false (mkConnection 0 0%Z [lit "hello" ++ [NUL]])
       (mkLogger 3 [] [])
     = Exit EXIT_FAILURE.
Proof.
  apply (X10_root_client_frame_exits 2048 false 0%Z INFO (lit "hello")
           (LogClient.mkNet 0 3 6) (mkLogger 3 [] [])).
  - reflexivity.
  - simpl. lia.
  - simpl. intros H. decompose [or] H; discriminate || assumption.
  - simpl. lia.
Defined.

(** ** The client helper, further *)

Lemma split_at_colon (a b x y : bytes) :
  ~ In COLON a -> ~ In COLON b ->
  a ++ COLON :: x = b ++ COLON :: y -> a = b /\ x = y.
Proof.
  revert b. induction a as [|c a IH]; intros [|d b] Ha Hb; cbn [app].
  - intros [= ->]. now split.
  - intros [= <- _]. exfalso. apply Hb. now left.
  - intros [= -> _]. exfalso. apply Ha. now left.
  - intros [= -> Heq]. destruct (IH b) as [-> ->]; try assumption.
    + intros Hin. apply Ha. now right.
    + intros Hin. apply Hb. now right.
    + now split.
Qed.

(** X11.  [format_log] loses nothing: two frames with the same bytes come
    from the same level and the same message, so the first [':'] of a
    frame always separates the level from the message. *)
Theorem X11_format_log_injective (l1 l2 : Z) (m1 m2 : bytes) :
  (0 <= l1 < 256)%Z -> (0 <= l2 < 256)%Z ->
  LogClient.format_log l1 m1 = LogClient.format_log l2 m2 ->
  l1 = l2 /\ m1 = m2.
Proof.
  intros H1 H2. unfold LogClient.format_log. cbn [lit list_ascii_of_string app].
  intros Heq.
  destruct (level_numeral l1 H1) as (Hc1 & _).
  destruct (level_numeral l2 H2) as (Hc2 & _).
  destruct (split_at_colon _ _ _ _ Hc1 Hc2 Heq) as [Hs ->].
  split; [|reflexivity].
  pose proof (to_string_decimal l1 H1) as Hd1.
  pose proof (to_string_decimal l2 H2) as Hd2.
  rewrite Hs in Hd1. congruence.
Qed.

Lemma X11_format_log_injective_witness : INFO = INFO /\ lit "a:b" = lit "a:b".
Proof.
  apply (X11_format_log_injective INFO INFO (lit "a:b") (lit "a:b")).
  - unfold INFO. lia.
  - unfold INFO. lia.
  - reflexivity.
Defined.

(** X12.  [writeLog] of src/client.cpp returns 0 or -1; it returns 0
    exactly when [socket], [connect] and [write] all succeed; and when
    [socket] or [connect] fails it returns before anything is handed to
    [write]. *)
Theorem X12_writeLog_result (level : Z) (message : bytes) (e : LogClient.net) :
  let r := LogClient.writeLog level message e in
  (fst r = 0%Z \/ fst r = (-1)%Z)
  /\ (fst r = 0%Z <->
      LogClient.socket_errno e = 0%Z
      /\ (0 <= LogClient.connect_ret e)%Z
      /\ (0 <= LogClient.write_ret e)%Z)
  /\ (snd r = None <->
      LogClient.socket_errno e <> 0%Z \/ (LogClient.connect_ret e < 0)%Z).
Proof.
  unfold LogClient.writeLog.
  destruct (Z.eqb_spec (LogClient.socket_errno e) 0) as [Hs|Hs]; cbn [negb];
    [destruct (Z.ltb_spec (LogClient.connect_ret e) 0) as [Hc|Hc];
     [|destruct (Z.ltb_spec (LogClient.write_ret e) 0) as [Hw|Hw]]|];
    cbn zeta; cbn [fst snd];
    (split; [first [left; reflexivity | right; reflexivity]|]);
    split; split; intros H;
    try discriminate H; try lia; try tauto;
    try (destruct H as [H|H]; [contradiction | lia]);
    try (repeat split; assumption).
Qed.

(** ** commitLog, further *)

Lemma last_app_cons (a b : bytes) (c d : ascii) :
  last (a ++ c :: b) d = last (c :: b) d.
Proof.
  induction a as [|x a IH]; [reflexivity|].
  cbn [app]. destruct (a ++ c :: b) eqn:Happ.
  - destruct a; discriminate Happ.
  - cbn [last] in *. exact IH.
Qed.

(** On the terminal the line never ends in a newline after the closing
    reset, so one is always appended. *)
Lemma terminate_line_terminal (m : bytes) :
  terminate_line STDOUT m = Ret (m ++ esc "[0m" ++ [LF]).
Proof.
  unfold terminate_line. cbn [Z.eqb STDOUT Pos.eqb].
  destruct (m ++ esc "[0m") as [|c line] eqn:Hline.
  - destruct m; discriminate Hline.
  - rewrite <- Hline. unfold esc at 1. rewrite last_app_cons.
    cbn. now rewrite <- app_assoc.
Qed.

Lemma terminate_line_file (f : Z) (line : bytes) :
  f <> STDOUT -> line <> [] ->
  terminate_line f line = Ret (with_newline line).
Proof.
  intros Hf Hne. apply Z.eqb_neq in Hf. unfold terminate_line, with_newline.
  rewrite Hf. destruct line as [|c line]; [congruence|].
  destruct (Ascii.eqb (last (c :: line) NUL) LF); reflexivity.
Qed.

Lemma level_cases (level : Z) :
  (0 <= level <= 3)%Z ->
  level = HEADER \/ level = INFO \/ level = DEBUG \/ level = ERROR.
Proof. unfold HEADER, INFO, DEBUG, ERROR. lia. Qed.

Lemma colour_switch_file (f level : Z) (m : bytes) :
  f <> STDOUT -> (0 <= level <= 3)%Z ->
  colour_switch f level m = Ret (label level ++ m).
Proof.
  intros Hf Hlevel. apply Z.eqb_neq in Hf. unfold colour_switch. rewrite Hf.
  destruct (level_cases level Hlevel) as [-> | [-> | [-> | ->]]]; reflexivity.
Qed.

Lemma colour_switch_terminal (level : Z) (m : bytes) :
  (0 <= level <= 3)%Z ->
  colour_switch STDOUT level m
  = Ret (colour level ++ label level ++ m ++ esc "[0m").
Proof.
  intros Hlevel.
  destruct (level_cases level Hlevel) as [-> | [-> | [-> | ->]]];
    unfold colour_switch, apply; cbn [Z.eqb HEADER INFO DEBUG ERROR STDOUT Pos.eqb];
    unfold colour, label; cbn [Z.eqb HEADER INFO DEBUG ERROR Pos.eqb app];
    now rewrite <- ?app_assoc.
Qed.

Lemma colour_switch_unknown (f level : Z) (m : bytes) :
  (level < 0 \/ 3 < level)%Z ->
  colour_switch f level m = Exit EXIT_FAILURE.
Proof.
  intros Hlevel. unfold colour_switch.
  assert ((level =? HEADER)%Z = false) as -> by (apply Z.eqb_neq; unfold HEADER; lia).
  assert ((level =? INFO)%Z = false) as -> by (apply Z.eqb_neq; unfold INFO; lia).
  assert ((level =? DEBUG)%Z = false) as -> by (apply Z.eqb_neq; unfold DEBUG; lia).
  assert ((level =? ERROR)%Z = false) as -> by (apply Z.eqb_neq; unfold ERROR; lia).
  reflexivity.
Qed.

Lemma commitLog_terminal
  (level : Z) (message : bytes) (q : list log) (w : list bytes) :
  (0 <= level <= 3)%Z ->
  commitLog level message (mkLogger STDOUT q w)
  = Ret (mkLogger STDOUT q
           (w ++ [colour level ++ label level ++ message
                  ++ esc "[0m" ++ esc "[0m" ++ [LF]])).
Proof.
  intros Hlevel. unfold commitLog. cbn [file logqueue written].
  rewrite colour_switch_terminal by assumption. cbn [bind].
  rewrite terminate_line_terminal. cbn [bind].
  now rewrite <- !app_assoc.
Qed.

(** X13.  On the terminal every log of a level in 0..3 is written as its
    colour sequence, its label, the message, two resets and a newline: the
    newline is always appended, also after a message that ends in a
    newline of its own. *)
Theorem X13_terminal_line
  (level : Z) (message : bytes) (q : list log) (w : list bytes) :
  (0 <= level <= 3)%Z ->
  commitLog level message (mkLogger STDOUT q w)
  = Ret (mkLogger STDOUT q
           (w ++ [colour level ++ label level ++ message
                  ++ esc "[0m" ++ esc "[0m" ++ [LF]])).
Proof.
  intros Hlevel. unfold commitLog. cbn [file logqueue written].
  rewrite colour_switch_terminal by assumption. cbn [bind].
  rewrite terminate_line_terminal. cbn [bind].
  now rewrite <- !app_assoc.
Qed.

Lemma X13_terminal_line_witness :
  commitLog ERROR (lit "down" ++ [LF]) (mkLogger STDOUT [] [])
  = Ret (mkLogger STDOUT [] 
           [colour ERROR ++ label ERROR ++ (lit "down" ++ [LF])
            ++ esc "[0m" ++ esc "[0m" ++ [LF]]).
Proof.
  apply (X13_terminal_line ERROR (lit "down" ++ [LF]) [] []).
  unfold ERROR. lia.
Defined.

Lemma formatted_file (f level : Z) (m : bytes) :
  f <> STDOUT -> (0 <= level <= 3)%Z -> label level ++ m <> [] ->
  formatted f (level, m) = Ret (with_newline (label level ++ m)).
Proof.
  intros Hf Hlevel Hne. unfold formatted. cbn [fst snd].
  rewrite colour_switch_file by assumption. cbn [bind].
  now apply terminate_line_file.
Qed.

Lemma with_newline_LF (line : bytes) : with_newline (line ++ [LF]) = line ++ [LF].
Proof. unfold with_newline. now rewrite last_last. Qed.

Lemma with_newline_missing (line : bytes) :
  last line NUL <> LF -> with_newline line = line ++ [LF].
Proof.
  intros H. unfold with_newline. apply Ascii.eqb_neq in H. now rewrite H.
Qed.

Lemma label_last (level : Z) : last (label level) NUL <> LF.
Proof.
  unfold label.
  destruct (level =? INFO)%Z; [discriminate|].
  destruct (level =? DEBUG)%Z; [discriminate|].
  destruct (level =? ERROR)%Z; discriminate.
Qed.

(** X14.  On a file a newline at the end of the message changes nothing:
    a message without one, and the same message with one appended, are
    written as the same line, the label, the message and one newline.
    (HEADER with an empty message, which has no line to test, is left
    out.) *)
Theorem X14_file_newline_idempotent (f level : Z) (message : bytes) :
  f <> STDOUT ->
  (0 <= level <= 3)%Z ->
  last message NUL <> LF ->
  level <> HEADER \/ message <> [] ->
  formatted f (level, message) = Ret (label level ++ message ++ [LF])
  /\ formatted f (level, message ++ [LF])
     = Ret (label level ++ message ++ [LF]).
Proof.
  intros Hf Hlevel Hlast Hne. split.
  - rewrite formatted_file; try assumption.
    + rewrite with_newline_missing; [now rewrite <- app_assoc|].
      destruct message as [|c message].
      * rewrite app_nil_r. apply label_last.
      * now rewrite last_app_cons.
    + destruct Hne as [Hl|Hm].
      * destruct (level_cases level Hlevel) as [-> | [-> | [-> | ->]]];
          [contradiction | discriminate ..].
      * intros Happ. apply app_eq_nil in Happ as [_ ->]. contradiction.
  - rewrite formatted_file; try assumption.
    + now rewrite app_assoc, with_newline_LF, <- app_assoc.
    + intros Happ. apply app_eq_nil in Happ as [_ Happ].
      destruct message; discriminate Happ.
Qed.

Lemma X14_file_newline_idempotent_witness :
  formatted 3 (INFO, lit "up") = Ret (label INFO ++ lit "up" ++ [LF])
  /\ formatted 3 (INFO, lit "up" ++ [LF])
     = Ret (label INFO ++ lit "up" ++ [LF]).
Proof.
  apply (X14_file_newline_idempotent 3 INFO (lit "up")).
  - discriminate.
  - unfold INFO. lia.
  - discriminate.
  - left. discriminate.
Defined.

(** X15.  The file does not keep the severity apart from the text: a
    HEADER log whose message starts with the label of a level is written
    exactly as the log of that level with the rest as its message. *)
Theorem X15_label_in_message (f level : Z) (message : bytes) :
  f <> STDOUT ->
  (0 <= level <= 3)%Z ->
  formatted f (HEADER, label level ++ message) = formatted f (level, message).
Proof.
  intros Hf Hlevel. unfold formatted. cbn [fst snd].
  rewrite (colour_switch_file f HEADER) by (assumption || unfold HEADER; lia).
  rewrite (colour_switch_file f level) by assumption.
  reflexivity.
Qed.

Lemma X15_label_in_message_witness :
  formatted 3 (HEADER, label ERROR ++ lit "down")
  = formatted 3 (ERROR, lit "down").
Proof.
  apply (X15_label_in_message 3 ERROR (lit "down")).
  - discriminate.
  - unfold ERROR. lia.
Defined.

(** X16.  The ways [commitLog] of src/server.cpp can fail to write: it
    calls [exit(EXIT_FAILURE)] exactly for a level outside 0..3; it
    indexes before the start of the line exactly for HEADER with an empty
    message on a file; it never dies in [assert].  In every other case it
    writes one buffer and leaves [file] and the queue as they were. *)
Theorem X16_commitLog_failures (level : Z) (message : bytes) (L : Logger) :
  (commitLog level message L = Exit EXIT_FAILURE
   <-> (level < 0 \/ 3 < level)%Z)
  /\ (commitLog level message L = Undefined
      <-> level = HEADER /\ message = [] /\ file L <> STDOUT)
  /\ commitLog level message L <> Abort
  /\ (forall c, commitLog level message L = Exit c -> c = EXIT_FAILURE)
  /\ (forall L', commitLog level message L = Ret L' ->
                 file L' = file L /\ logqueue L' = logqueue L
                 /\ exists out, written L' = written L ++ [out]).
Proof.
  destruct L as [f q w]. cbn [file].
  assert (Hcases : (level < 0 \/ 3 < level)%Z \/ (0 <= level <= 3)%Z) by lia.
  assert (Hwritten : forall out L',
             Ret (mkLogger f q (w ++ [out])) = Ret L' ->
             file L' = f /\ logqueue L' = q
             /\ exists out', written L' = w ++ [out']).
  { intros out L' H. apply Ret_inj in H. subst L'. cbn.
    repeat split. now exists out. }
  destruct Hcases as [Hbad|Hok].
  - (* an unknown level *)
    assert (Hexit : commitLog level message (mkLogger f q w) = Exit EXIT_FAILURE).
    { unfold commitLog. cbn [file]. now rewrite colour_switch_unknown. }
    rewrite Hexit. split; [|split; [|split; [|split]]].
    + split; [intros _; assumption | reflexivity].
    + split; [discriminate|]. intros (-> & _). unfold HEADER in Hbad. lia.
    + discriminate.
    + intros c H. now injection H.
    + intros L' H. discriminate H.
  - destruct (Z.eq_dec f STDOUT) as [->|Hf].
    + (* the terminal *)
      rewrite commitLog_terminal by assumption.
      split; [|split; [|split; [|split]]].
      * split; [discriminate | intros; lia].
      * split; [discriminate|]. intros (_ & _ & H). now contradiction H.
      * discriminate.
      * intros c H. discriminate H.
      * apply Hwritten.
    + (* a file *)
      destruct (list_eq_dec ascii_dec (label level ++ message) []) as [Hnil|Hne].
      * apply app_eq_nil in Hnil as [Hlab ->].
        assert (level = HEADER) as ->.
        { destruct (level_cases level Hok) as [-> | [-> | [-> | ->]]];
            [reflexivity | discriminate ..]. }
        assert (Hun : commitLog HEADER [] (mkLogger f q w) = Undefined).
        { unfold commitLog, colour_switch, terminate_line. cbn [file Z.eqb HEADER].
          apply Z.eqb_neq in Hf. now rewrite Hf. }
        rewrite Hun. split; [|split; [|split; [|split]]].
        -- split; [discriminate | intros; lia].
        -- split; [intros _; repeat split; assumption | reflexivity].
        -- discriminate.
        -- intros c H. discriminate H.
        -- intros L' H. discriminate H.
      * assert (Hret : commitLog level message (mkLogger f q w)
                       = Ret (mkLogger f q
                                (w ++ [with_newline (label level ++ message)]))).
        { rewrite commitLog_formatted. cbn [file logqueue written].
          now rewrite formatted_file. }
        rewrite Hret. split; [|split; [|split; [|split]]].
        -- split; [discriminate | intros; lia].
        -- split; [discriminate|]. intros (-> & -> & _).
           exfalso. apply Hne. reflexivity.
        -- discriminate.
        -- intros c H. discriminate H.
        -- apply Hwritten.
Qed.

(** ** service.cpp against src/server.cpp *)

Lemma Service_colour_switch (file : Service.FILE) (f level : Z) (m : bytes) :
  Service.is_stdout file = (f =? STDOUT)%Z ->
  Service.colour_switch file level m = colour_switch f level m.
Proof.
  intros Hsame. unfold Service.colour_switch, colour_switch.
  now rewrite Hsame.
Qed.

(** X17.  The two versions of [commitLog] differ by the newline step
    alone: for the same kind of sink, what src/server.cpp writes is what
    service.cpp writes, with a newline appended when that does not end in
    one; service.cpp itself writes the line as it is, so a message without
    a newline is written without one.  Both call [exit] for the same
    levels. *)
Theorem X17_service_cpp_vs_server_cpp
  (file : Service.FILE) (f level : Z) (message : bytes) :
  Service.is_stdout file = (f =? STDOUT)%Z ->
  (forall out,
      Service.commitLog file level message = Ret out ->
      out <> [] ->
      formatted f (level, message) = Ret (with_newline out))
  /\ (forall c,
        Service.commitLog file level message = Exit c
        <-> formatted f (level, message) = Exit c).
Proof.
  intros Hsame. unfold Service.commitLog, formatted. cbn [fst snd].
  rewrite (Service_colour_switch file f level message Hsame).
  destruct (colour_switch f level message) as [m|c'| |] eqn:Hsw; cbn [bind].
  - split.
    + intros out Hout Hne. apply Ret_inj in Hout. subst out.
      unfold terminate_line, with_newline. rewrite <- Hsame.
      destruct (if Service.is_stdout file then m ++ esc "[0m" else m);
        [congruence|].
      destruct (Ascii.eqb _ LF); reflexivity.
    + intros c. split; [discriminate|].
      unfold terminate_line.
      destruct (if (f =? STDOUT)%Z then m ++ esc "[0m" else m);
        [discriminate|].
      destruct (Ascii.eqb _ LF); discriminate.
  - split; [discriminate|]. intros c. reflexivity.
  - split; [discriminate|]. intros c. split; discriminate.
  - split; [discriminate|]. intros c. split; discriminate.
Qed.

Lemma X17_service_cpp_vs_server_cpp_witness :
  formatted 3 (DEBUG, lit "tick") = Ret (with_newline (lit "Debug: tick")).
Proof.
  refine (proj1 (X17_service_cpp_vs_server_cpp
                   (Service.fopened (lit "app.log")) 3 DEBUG (lit "tick")
                   eq_refl) (lit "Debug: tick") eq_refl _).
  discriminate.
Defined.

(** ** The two loops together *)

Lemma formatted_ends_in_newline (f : Z) (l : log) (out : bytes) :
  formatted f l = Ret out -> last out NUL = LF.
Proof.
  unfold formatted.
  destruct (colour_switch f (fst l) (snd l)) as [m| | |]; cbn [bind];
    try discriminate.
  unfold terminate_line.
  destruct (if (f =? STDOUT)%Z then m ++ esc "[0m" else m) as [|c line];
    [discriminate|].
  destruct (Ascii.eqb_spec (last (c :: line) NUL) LF) as [Heq|_].
  - now intros [= <-].
  - intros [= <-]. apply (last_last (c :: line)).
Qed.

Section ScheduleFacts.

Variable LINE_MAX : nat.
Variable einval_on_no_conversion : bool.

Local Abbreviation run := (run_turns LINE_MAX einval_on_no_conversion).
Local Abbreviation from := (log_of LINE_MAX einval_on_no_conversion).

(** A run keeps the history of the queue: the logs committed and the logs
    queued are, in order, what they were followed by the logs of the
    connections taken, and each write is one committed log, formatted. *)
Lemma run_turns_history (ts : list turn) :
  forall (L L' : Logger) (committed : list log),
    Forall2 (fun l w => formatted (file L) l = Ret w) committed (written L) ->
    run ts L = Ret L' ->
    file L' = file L
    /\ exists committed' logs,
         Forall2 from (accepts ts) logs
         /\ committed' ++ logqueue L' = committed ++ logqueue L ++ logs
         /\ Forall2 (fun l w => formatted (file L) l = Ret w)
              committed' (written L').
Proof.
  induction ts as [|[c|] ts IH]; intros L L' committed Hwr; cbn [run_turns accepts].
  - intros H. apply Ret_inj in H. subst L'. split; [reflexivity|].
    exists committed, []. rewrite app_nil_r. repeat split; [constructor | assumption].
  - unfold start_turn.
    destruct (negb (accept_errno c =? 0)%Z); cbn [bind]; [discriminate|].
    destruct (read_connection _ _ (junk c) (reads c)) as [l| | |] eqn:Hread;
      cbn [bind]; try discriminate.
    intros Hrun.
    destruct (IH (pushQueue l L) L' committed Hwr Hrun)
      as (Hfile & committed' & logs & Hlogs & Hhist & Hwr').
    split; [exact Hfile|].
    exists committed', (l :: logs). repeat split.
    + constructor; assumption.
    + rewrite Hhist. cbn [pushQueue logqueue]. now rewrite <- app_assoc.
    + exact Hwr'.
  - unfold processQueue_turn.
    destruct L as [f [|[lv m] q] w]; cbn [logqueue bind].
    + discriminate.
    + rewrite popQueue_head. cbn [bind fst snd].
      rewrite commitLog_formatted. cbn [file logqueue written] in *.
      destruct (formatted f (lv, m)) as [out| | |] eqn:Hout;
        cbn [bind]; try discriminate.
      intros Hrun.
      destruct (IH (mkLogger f q (w ++ [out])) L' (committed ++ [(lv, m)]))
        as (Hfile & committed' & logs & Hlogs & Hhist & Hwr');
        [|exact Hrun|].
      * cbn [file written]. apply Forall2_app; [assumption|].
        constructor; [assumption | constructor].
      * split; [exact Hfile|].
        exists committed', logs. repeat split; try assumption.
        rewrite Hhist. cbn [logqueue]. now rewrite <- app_assoc.
Qed.

End ScheduleFacts.



(** X18.  Over every schedule of the two loops that starts with an empty
    queue and an untouched sink and runs to its end, the writes on the
    sink are the formatted logs of the first connections taken, one write
    per log and in the order the connections were taken, and the queue
    holds the logs of the connections taken after those, in order: no log
    is dropped, repeated, reordered or merged with another. *)
Theorem X18_writes_in_arrival_order
  (LINE_MAX : nat) (e : bool) (ts : list turn) (L0 L : Logger) :
  logqueue L0 = [] ->
  written L0 = [] ->
  run_turns LINE_MAX e ts L0 = Ret L ->
  exists logs n,
    Forall2 (log_of LINE_MAX e) (accepts ts) logs
    /\ n = length (written L)
    /\ Forall2 (fun l w => formatted (file L0) l = Ret w)
         (firstn n logs) (written L)
    /\ logqueue L = skipn n logs.
Proof.
  intros Hq Hw Hrun.
  destruct (run_turns_history LINE_MAX e ts L0 L [])
    as (_ & committed & logs & Hlogs & Hhist & Hwr); [|exact Hrun|].
  - rewrite Hw. constructor.
  - rewrite Hq in Hhist. cbn [app] in Hhist.
    exists logs, (length (written L)).
    pose proof (Forall2_length Hwr) as Hlen.
    split; [assumption|]. split; [reflexivity|]. rewrite <- Hlen, <- Hhist.
    split.
    + rewrite firstn_app, Nat.sub_diag, firstn_all. cbn [firstn].
      now rewrite app_nil_r.
    + rewrite skipn_app, Nat.sub_diag, skipn_all. reflexivity.
Qed.

Lemma X18_writes_in_arrival_order_witness :
  exists logs n,
    Forall2 (log_of 2048 false)
      (accepts [Accept (mkConnection 0 0%Z [lit "1:a"]);
                Accept (mkConnection 0 0%Z [lit "3:b"]); Commit]) logs
    /\ n = length (written (mkLogger 3 [(ERROR, lit "b")] [lit "Info: a" ++ [LF]]))
    /\ Forall2 (fun l w => formatted (file (mkLogger 3 [] [])) l = Ret w)
         (firstn n logs)
         (written (mkLogger 3 [(ERROR, lit "b")] [lit "Info: a" ++ [LF]]))
    /\ logqueue (mkLogger 3 [(ERROR, lit "b")] [lit "Info: a" ++ [LF]])
       = skipn n logs.
Proof.
  apply (X18_writes_in_arrival_order 2048 false
           [Accept (mkConnection 0 0%Z [lit "1:a"]);
            Accept (mkConnection 0 0%Z [lit "3:b"]); Commit]
           (mkLogger 3 [] [])
           (mkLogger 3 [(ERROR, lit "b")] [lit "Info: a" ++ [LF]]));
    reflexivity.
Defined.

Lemma run_turns_app (LINE_MAX : nat) (e : bool) (ts1 ts2 : list turn) :
  forall L,
    run_turns LINE_MAX e (ts1 ++ ts2) L
    = (L' <- run_turns LINE_MAX e ts1 L ;; run_turns LINE_MAX e ts2 L').
Proof.
  induction ts1 as [|[c|] ts1 IH]; intros L; cbn [app run_turns bind].
  - reflexivity.
  - destruct (start_turn LINE_MAX e c L); cbn [bind]; [apply IH | reflexivity ..].
  - destruct (processQueue_turn L); cbn [bind]; [apply IH | reflexivity ..].
Qed.

(** X19.  Left alone with a queue whose logs all format, the queue thread
    empties it: after as many turns as there are logs, each taken on a
    queue that still holds one, the queue is empty and the sink has got one
    write per log, in queue order, after what was written before. *)
Theorem X19_queue_drains
  (LINE_MAX : nat) (e : bool) (L : Logger) (outs : list bytes) :
  Forall2 (fun l w => formatted (file L) l = Ret w) (logqueue L) outs ->
  run_turns LINE_MAX e (repeat Commit (length (logqueue L))) L
  = Ret (mkLogger (file L) [] (written L ++ outs)).
Proof.
  destruct L as [f q w]. cbn [file logqueue written].
  intros Hfmt. revert w.
  induction Hfmt as [|[lv m] out q outs Hout _ IH]; intros w;
    cbn [length repeat run_turns].
  - now rewrite app_nil_r.
  - unfold processQueue_turn. cbn [logqueue].
    rewrite popQueue_head. cbn [bind fst snd].
    rewrite commitLog_formatted. cbn [file logqueue written].
    rewrite Hout. cbn [bind]. rewrite IH.
    now rewrite <- app_assoc.
Qed.

Lemma X19_queue_drains_witness :
  run_turns 2048 false (repeat Commit 2)
    (mkLogger 3 [(INFO, lit "a"); (ERROR, lit "b")] [])
  = Ret (mkLogger 3 [] ([] ++ [lit "Info: a" ++ [LF]; lit "Error: b" ++ [LF]])).
Proof.
  apply (X19_queue_drains 2048 false
           (mkLogger 3 [(INFO, lit "a"); (ERROR, lit "b")] [])
           [lit "Info: a" ++ [LF]; lit "Error: b" ++ [LF]]).
  repeat constructor.
Defined.

(** X20.  Whatever the clients send and however the two loops take
    turns, every write that [commitLog] of src/server.cpp makes on the
    sink ends in a newline. *)
Theorem X20_every_write_ends_in_newline
  (LINE_MAX : nat) (e : bool) (ts : list turn) (L0 L : Logger) :
  written L0 = [] ->
  run_turns LINE_MAX e ts L0 = Ret L ->
  Forall (fun w => last w NUL = LF) (written L).
Proof.
  intros Hw Hrun.
  destruct (run_turns_history LINE_MAX e ts L0 L [])
    as (_ & committed & _ & _ & _ & Hwr); [|exact Hrun|].
  - rewrite Hw. constructor.
  - clear Hrun. induction Hwr as [|l w ls ws Hfmt _ IH]; constructor.
    + eapply formatted_ends_in_newline. eassumption.
    + assumption.
Qed.

Lemma X20_every_write_ends_in_newline_witness :
  Forall (fun w => last w NUL = LF)
    (written (mkLogger 3 [] [header; lit "Debug: x" ++ [LF]])).
Proof.
  apply (X20_every_write_ends_in_newline 2048 false
           [Accept (mkConnection 0 0%Z [lit "2:x"]); Commit; Commit]
           (mkLogger 3 [(HEADER, header)] [])
           (mkLogger 3 [] [header; lit "Debug: x" ++ [LF]]));
    reflexivity.
Defined.

(** X21.  A connection closed before any byte, met while the local
    [level] holds a value outside 0..3, ends the service one step later:
    its log is queued, and the turn of the queue thread that commits it
    calls [exit(EXIT_FAILURE)] from the [default] branch. *)
Theorem X21_stale_level_exits_at_commit
  (LINE_MAX : nat) (e : bool) (j : Z) (L : Logger) :
  logqueue L = [] ->
  (j < 0 \/ 3 < j)%Z ->
  run_turns LINE_MAX e [Accept (mkConnection 0 j []); Commit] L
  = Exit EXIT_FAILURE.
Proof.
  intros Hq Hj. destruct L as [f q w]. cbn [logqueue] in Hq. subst q.
  assert (Hstart : start_turn LINE_MAX e (mkConnection 0 j []) (mkLogger f [] w)
                   = Ret (mkLogger f [(j, [])] w)) by reflexivity.
  cbn [run_turns]. rewrite Hstart. cbn [bind].
  unfold processQueue_turn. cbn [logqueue]. rewrite popQueue_head.
  cbn [bind fst snd]. unfold commitLog. cbn [file].
  now rewrite colour_switch_unknown.
Qed.

Lemma X21_stale_level_exits_at_commit_witness :
  run_turns 2048 false [Accept (mkConnection 0 200%Z []); Commit]
    (mkLogger 3 [] [header])
  = Exit EXIT_FAILURE.
Proof.
  apply (X21_stale_level_exits_at_commit 2048 false 200%Z (mkLogger 3 [] [header])).
  - reflexivity.
  - lia.
Defined.

(** ** From the client helper to the file *)

Lemma accept_client_connections
  (LINE_MAX : nat) (e : bool) (sends : list log) :
  Forall (good_send LINE_MAX) sends ->
  forall L,
    run_turns LINE_MAX e (map (fun p => Accept (client_connection p)) sends) L
    = Ret (mkLogger (file L) (logqueue L ++ sends) (written L)).
Proof.
  induction 1 as [|[lv m] sends (Hlv & Hnul & Hlen) _ IH]; intros [f q w];
    cbn [map run_turns file logqueue written].
  - now rewrite app_nil_r.
  - unfold start_turn, client_connection.
    cbn [accept_errno junk reads Z.eqb negb fst snd] in *.
    unfold LogClient.format_log. cbn [lit list_ascii_of_string].
    rewrite <- !app_assoc. cbn [app].
    rewrite read_client_frame by lia.
    assert ((0 <=? lv)%Z && (lv <=? 3)%Z = true) as ->.
    { apply andb_true_intro. split; apply Z.leb_le; lia. }
    cbn [assert bind]. rewrite to_uint8_level by lia.
    rewrite (c_str_no_NUL m Hnul). rewrite IH.
    cbn [pushQueue file logqueue written]. now rewrite <- app_assoc.
Qed.

Lemma drain_file_queue (LINE_MAX : nat) (e : bool) (f : Z) (q : list log) :
  f <> STDOUT ->
  Forall (good_send LINE_MAX) q ->
  forall w,
    run_turns LINE_MAX e (repeat Commit (length q)) (mkLogger f q w)
    = Ret (mkLogger f [] (w ++ map file_line q)).
Proof.
  intros Hf. induction 1 as [|[lv m] q (Hlv & _ & _) _ IH]; intros w;
    cbn [length repeat run_turns map].
  - now rewrite app_nil_r.
  - unfold processQueue_turn. cbn [logqueue]. rewrite popQueue_head.
    cbn [bind fst snd] in *. rewrite commitLog_formatted.
    cbn [file logqueue written].
    rewrite formatted_file; try assumption; try lia.
    + cbn [bind]. rewrite IH. unfold file_line at 2. cbn [fst snd].
      now rewrite <- app_assoc.
    + destruct (level_cases lv ltac:(lia)) as [-> | [-> | [-> | ->]]];
        [unfold HEADER in Hlv; lia | discriminate ..].
Qed.

(** X22.  From end to end on a file: when the constructor has queued the
    banner and then N sends of the client helper, each with a level from
    INFO to ERROR and a message without NUL that fits the buffer, are
    taken one after the other and the queue thread then takes N+1 turns,
    the file holds the banner followed by exactly N lines, one per send in
    the order taken, each the label of its level, its message and one
    newline at the end; the queue is empty. *)
Theorem X22_sends_reach_the_file
  (LINE_MAX : nat) (e : bool) (f : Z) (sends : list log) :
  f <> STDOUT ->
  Forall (good_send LINE_MAX) sends ->
  run_turns LINE_MAX e
    (map (fun p => Accept (client_connection p)) sends
     ++ repeat Commit (S (length sends)))
    (mkLogger f [(HEADER, header)] [])
  = Ret (mkLogger f [] (header :: map file_line sends)).
Proof.
  intros Hf Hsends.
  rewrite run_turns_app, accept_client_connections by assumption.
  cbn [bind file logqueue written app repeat run_turns].
  unfold processQueue_turn. cbn [logqueue]. rewrite popQueue_head.
  cbn [bind fst snd]. rewrite commitLog_formatted.
  cbn [file logqueue written]. rewrite formatted_header.
  unfold banner. apply Z.eqb_neq in Hf. rewrite Hf. apply Z.eqb_neq in Hf.
  cbn [bind app]. now rewrite drain_file_queue.
Qed.

Lemma X22_sends_reach_the_file_witness :
  run_turns 2048 false
    (map (fun p => Accept (client_connection p))
       [(INFO, lit "up"); (ERROR, lit "down")]
     ++ repeat Commit 3)
    (mkLogger 3 [(HEADER, header)] [])
  = Ret (mkLogger 3 []
           (header :: map file_line [(INFO, lit "up"); (ERROR, lit "down")])).
Proof.
  apply (X22_sends_reach_the_file 2048 false 3
           [(INFO, lit "up"); (ERROR, lit "down")]).
  - discriminate.
  - repeat constructor; simpl; try lia;
      intros H; decompose [or] H; discriminate || assumption.
Defined.
